(** * Urdle: guess evaluation, daily word selection and the daily state machine

    A shallow embedding of [js/words.js], [js/daily.js] and [js/game.js].

    Conventions of the embedding.
    - A JavaScript string is represented by the sequence of its Unicode code
      points, which is what [Array.from] iterates over; [splitUrdu] is
      therefore the identity on the representation.  Key strings are taken
      to be well formed, so that joining them concatenates the sequences.
    - An array read out of range gives [undefined]; list lookup [l !! i]
      returns [None] there, and [None] stands for [undefined].
    - The object [freq] used as a dictionary is a [gmap] whose keys are the
      property names that the code can form: [Some c] for the one-letter
      string of code point [c], and [None] for the property name
      ["undefined"] obtained when the key expression is [undefined].  No
      inherited property of a plain object has such a name.
    - Mutable module-level variables are fields of an explicit record that
      is threaded through the functions. *)

From Stdlib Require Import ZArith Lia String Ascii.
From stdpp Require Import gmap list.

Open Scope Z_scope.
Open Scope nat_scope.

(** ** Strings and letters *)

(** A letter is one code point; a string is a sequence of them. *)
Abbreviation letter := N.
Abbreviation jsstring := (list N).

(** An ASCII string literal as code points. *)
Definition lit (s : string) : jsstring :=
  map N_of_ascii (list_ascii_of_string s).

(** [splitUrdu(word)]: [Array.from(word)]. *)
Definition splitUrdu (word : jsstring) : list letter := word.

(** [arr.join('')] on an array of strings. *)
Definition join (parts : list jsstring) : jsstring := concat parts.

(** ** Constants of [game.js] *)

Definition WORD_LENGTH : nat := 4.
Definition MAX_ATTEMPTS : nat := 5.
Definition HINT_MAGIC_NUMBER : nat := 18.

(** ** The word list of [words.js], as code points *)

Definition WORDS : list jsstring :=
  [ [1591; 1575; 1729; 1585]
  ; [1605; 1606; 1583; 1585]
  ; [1576; 1575; 1583; 1604]
  ; [1605; 1575; 1580; 1583]
  ; [1580; 1575; 1729; 1604]
  ; [1705; 1575; 1605; 1604]
  ; [1593; 1575; 1583; 1604]
  ; [1589; 1575; 1576; 1585]
  ; [1606; 1575; 1589; 1585]
  ; [1581; 1575; 1605; 1583]
  ; [1602; 1575; 1587; 1605]
  ; [1608; 1575; 1581; 1583]
  ; [1588; 1575; 1705; 1585]
  ; [1594; 1575; 1601; 1604]
  ; [1601; 1575; 1590; 1604]
  ; [1582; 1575; 1604; 1583]
  ; [1587; 1575; 1604; 1605]
  ; [1581; 1575; 1590; 1585]
  ; [1578; 1575; 1580; 1585]
  ; [1586; 1575; 1729; 1583] ]%N.

(** [WORDS.includes(w)]. *)
Definition includes (words : list jsstring) (w : jsstring) : bool :=
  bool_decide (w ∈ words).

(** ** Tile evaluation *)

Inductive LetterStatus := Correct | Present | Absent.

#[global] Instance LetterStatus_eq_dec : EqDecision LetterStatus.
Proof. solve_decision. Defined.

(** The numbers that can be stored in [freq]: integers and [NaN]. *)
Inductive jsnum := Num (z : Z) | NaN.

(** [v || 0] for a property read [v]. *)
Definition or_zero (v : option jsnum) : jsnum :=
  match v with
  | Some (Num z) => Num z
  | Some NaN | None => Num 0
  end.

(** [n + 1]. *)
Definition plus_one (n : jsnum) : jsnum :=
  match n with
  | Num z => Num (z + 1)
  | NaN => NaN
  end.

(** The value stored by [freq[k]--] when the property read gives [v]:
    [undefined] converts to [NaN]. *)
Definition decremented (v : option jsnum) : jsnum :=
  match v with
  | Some (Num z) => Num (z - 1)
  | Some NaN | None => NaN
  end.

(** [v && v > 0] as a condition. *)
Definition truthy_and_positive (v : option jsnum) : bool :=
  match v with
  | Some (Num z) => bool_decide (0 < z)%Z
  | Some NaN | None => false
  end.

Abbreviation freqmap := (gmap (option letter) jsnum).

(** [for (const letter of secretLetters) freq[letter] = (freq[letter] || 0) + 1]. *)
Definition countLetter (freq : freqmap) (c : letter) : freqmap :=
  <[Some c := plus_one (or_zero (freq !! Some c))]> freq.

Definition buildFreq (secretLetters : list letter) : freqmap :=
  fold_left countLetter secretLetters ∅.

(** [freq[k]--]. *)
Definition decrement (freq : freqmap) (k : option letter) : freqmap :=
  <[k := decremented (freq !! k)]> freq.

(** Body of the first loop: mark correct (green). *)
Definition firstPassStep (guessLetters secretLetters : list letter)
    (st : list LetterStatus * freqmap) (i : nat) : list LetterStatus * freqmap :=
  if decide (guessLetters !! i = secretLetters !! i)
  then (<[i := Correct]> st.1, decrement st.2 (guessLetters !! i))
  else st.

(** Body of the second loop: mark present (yellow). *)
Definition secondPassStep (guessLetters : list letter)
    (st : list LetterStatus * freqmap) (i : nat) : list LetterStatus * freqmap :=
  if decide (st.1 !! i = Some Correct) then st
  else if truthy_and_positive (st.2 !! (guessLetters !! i))
  then (<[i := Present]> st.1, decrement st.2 (guessLetters !! i))
  else st.

Definition firstPass (guessLetters secretLetters : list letter)
    (st : list LetterStatus * freqmap) : list LetterStatus * freqmap :=
  fold_left (firstPassStep guessLetters secretLetters) (seq 0 WORD_LENGTH) st.

Definition secondPass (guessLetters : list letter)
    (st : list LetterStatus * freqmap) : list LetterStatus * freqmap :=
  fold_left (secondPassStep guessLetters) (seq 0 WORD_LENGTH) st.

(** [evaluateGuess(guess)], with the module variable [secretLetters] made an
    argument. *)
Definition evaluateGuess (secretLetters : list letter) (guess : jsstring)
    : list LetterStatus :=
  let guessLetters := splitUrdu guess in
  let result := replicate WORD_LENGTH Absent in
  let freq := buildFreq secretLetters in
  (secondPass guessLetters
     (firstPass guessLetters secretLetters (result, freq))).1.

(** ** Completions: a call either returns or throws *)

Inductive jserror := TypeError | SyntaxError.

Inductive completion (A : Type) :=
  | Return (v : A)
  | Throw (e : jserror).
Arguments Return {A} v.
Arguments Throw {A} e.

#[global] Instance completion_ret : MRet completion := fun A v => Return v.
#[global] Instance completion_bind : MBind completion := fun A B k c =>
  match c with
  | Return v => k v
  | Throw e => Throw e
  end.

(** [try { body } catch { handler }]. *)
Definition try_catch {A} (body : completion A) (handler : completion A) : completion A :=
  match body with
  | Return v => Return v
  | Throw _ => handler
  end.

(** ** Daily word selection ([daily.js]) *)

(** The calendar date that [getUSToday()] formats: the current date in the
    zone America/New_York.  The clock and the zone conversion belong to the
    platform; the date is an input here. *)
Record DayKey := { year : Z; month : Z; day : Z }.

Definition digit (n : Z) : N := Z.to_N (48 + n mod 10)%Z.

(** The [en-CA] rendering with a numeric year and two-digit month and day:
    [YYYY-MM-DD]. *)
Definition getUSToday (k : DayKey) : jsstring :=
  [ digit (year k / 1000); digit (year k / 100); digit (year k / 10); digit (year k)
  ; 45%N; digit (month k / 10); digit (month k)
  ; 45%N; digit (day k / 10); digit (day k) ].

(** Number of days from 1970-01-01 to a date of the proleptic Gregorian
    calendar. *)
Definition daysFromEpoch (k : DayKey) : Z :=
  (let y := if month k <=? 2 then year k - 1 else year k in
   let era := y / 400 in
   let yoe := y - era * 400 in
   let mp := (month k + 9) mod 12 in
   let doy := (153 * mp + 2) / 5 + day k - 1 in
   let doe := yoe * 365 + yoe / 4 - yoe / 100 + doy in
   era * 146097 + doe - 719468)%Z.

(** [new Date(today).getTime()]: a date-only string is read as midnight UTC
    of that date, in milliseconds. *)
Definition dateGetTime (k : DayKey) : Z := (daysFromEpoch k * 86400000)%Z.

(** [a % b] on integers: the remainder takes the sign of the dividend, and
    is [NaN] for a zero divisor. *)
Definition js_rem (a b : Z) : jsnum :=
  if decide (b = 0)%Z then NaN else Num (Z.rem a b).

(** [arr[i]]: [undefined] unless [i] is an index of the array. *)
Definition js_index {A} (arr : list A) (i : jsnum) : option A :=
  match i with
  | Num z => if decide (z < 0)%Z then None else arr !! Z.to_nat z
  | NaN => None
  end.

(** [getDailyWord()], with the word list and today's date as arguments. *)
Definition getDailyWord (words : list jsstring) (today : DayKey)
    : completion (option jsstring) :=
  let epoch := dateGetTime today in
  let dayIndex := (epoch / 86400000)%Z in
  Return (js_index words (js_rem dayIndex (Z.of_nat (length words)))).

(** ** Persistence ([daily.js]) *)

(** The record written under the key [urdle_daily].  A field is [None] when
    the parsed value has no such property (or, for [saved_date], holds
    something other than a string); present fields have the types that
    [saveDailyState] writes.  A stored value whose fields hold anything
    else (an array of attempts with an element that is not a string, say)
    has no representation here; what is proved about restoring a record of
    today is stated for records that [saveDailyState] wrote. *)
Record SavedState := {
  saved_date : option jsstring;
  saved_attempts : option (list jsstring);
  saved_gameOver : option bool;
  saved_won : option bool }.

(** What [JSON.parse] makes of a stored text: [null], or a value whose
    properties can be read. *)
Inductive parsed := PNull | PValue (data : SavedState).

(** The text stored in the slot, classified by what the built-ins do with
    it: the empty string, a text that [JSON.parse] rejects, or a text that
    parses.  The slot itself is an [option]: [None] when [getItem] returns
    [null].  [localStorage] is taken to be available. *)
Inductive item := EmptyString | Unparsable | Json (p : parsed).

Definition JSON_parse (raw : item) : completion parsed :=
  match raw with
  | Json p => Return p
  | EmptyString | Unparsable => Throw SyntaxError
  end.

(** [loadDailyState()]; [today] is the value of [getUSToday()]. *)
Definition loadDailyState (today : jsstring) (slot : option item)
    : completion (option SavedState) :=
  try_catch
    (match slot with
     | None | Some EmptyString => Return None
     | Some raw =>
         data ← JSON_parse raw;
         match data with
         | PNull => Throw TypeError
         | PValue r =>
             if decide (saved_date r ≠ Some today) then Return None
             else Return (Some r)
         end
     end)
    (Return None).

(** The slot after [saveDailyState(attempts, gameOver, won)]:
    [JSON.stringify] of the record, which parses back to the record. *)
Definition saveDailyState (today : jsstring) (attempts : list jsstring)
    (gameOver won : bool) : option item :=
  Some (Json (PValue {| saved_date := Some today;
                        saved_attempts := Some attempts;
                        saved_gameOver := Some gameOver;
                        saved_won := Some won |})).

(** [markPlayed(attempts, won)]. *)
Definition markPlayed (today : jsstring) (attempts : list jsstring) (won : bool)
    : option item :=
  saveDailyState today attempts true won.

(** [canPlayToday()]. *)
Definition canPlayToday (today : jsstring) (slot : option item) : completion bool :=
  state ← loadDailyState today slot;
  match state with
  | None => Return true
  | Some s => Return (negb (default false (saved_gameOver s)))
  end.

(** ** Game state ([game.js]) *)

(** The module-level variables. *)
Record Game := {
  secretWord : jsstring;
  secretLetters : list letter;
  currentGuess : list jsstring;
  attempts : list jsstring;
  evaluations : list (list LetterStatus);
  currentRow : nat;
  gameOver : bool;
  won : bool;
  hintClickCount : nat }.

(** The game together with what it acts on: the storage slot, the
    submission callbacks scheduled with [setTimeout] and not yet run (all
    with the same delay, hence first in, first out), and the messages passed
    to [showToast] so far.  Rendering is left out. *)
Record World := {
  game : Game;
  storage : option item;
  timers : list (jsstring * list LetterStatus);
  toasts : list jsstring }.

Definition initialGame : Game :=
  {| secretWord := []; secretLetters := []; currentGuess := [];
     attempts := []; evaluations := []; currentRow := 0;
     gameOver := false; won := false; hintClickCount := 0 |}.

Definition setGame (g : Game) (w : World) : World :=
  {| game := g; storage := storage w; timers := timers w; toasts := toasts w |}.

Definition updGame (f : Game -> Game) (w : World) : World :=
  setGame (f (game w)) w.

Definition setItem (v : option item) (w : World) : World :=
  {| game := game w; storage := v; timers := timers w; toasts := toasts w |}.

Definition showToast (message : jsstring) (w : World) : World :=
  {| game := game w; storage := storage w; timers := timers w;
     toasts := toasts w ++ [message] |}.

Definition setTimeout (guessWord : jsstring) (evaluation : list LetterStatus)
    (w : World) : World :=
  {| game := game w; storage := storage w;
     timers := timers w ++ [(guessWord, evaluation)]; toasts := toasts w |}.

Definition setCurrentGuess (cg : list jsstring) (g : Game) : Game :=
  {| secretWord := secretWord g; secretLetters := secretLetters g;
     currentGuess := cg; attempts := attempts g;
     evaluations := evaluations g; currentRow := currentRow g;
     gameOver := gameOver g; won := won g;
     hintClickCount := hintClickCount g |}.

Definition setHintClickCount (n : nat) (g : Game) : Game :=
  {| secretWord := secretWord g; secretLetters := secretLetters g;
     currentGuess := currentGuess g; attempts := attempts g;
     evaluations := evaluations g; currentRow := currentRow g;
     gameOver := gameOver g; won := won g; hintClickCount := n |}.

(** Messages. *)
Definition MSG_FOUR_LETTERS : jsstring :=
  [1670; 1575; 1585; 32; 1581; 1585; 1608; 1601; 32; 1583; 1585; 1580; 32;
   1705; 1585; 1740; 1722]%N.
Definition MSG_NOT_IN_LIST : jsstring :=
  [1740; 1729; 32; 1604; 1601; 1592; 32; 1601; 1729; 1585; 1587; 1578; 32;
   1605; 1740; 1722; 32; 1606; 1729; 1740; 1722; 32; 1729; 1746]%N.
Definition MSG_CONGRATS : jsstring :=
  [127881; 32; 1605; 1576; 1575; 1585; 1705; 32; 1729; 1608; 33]%N.
Definition MSG_LOST_PREFIX : jsstring :=
  (lit "khair hogayiiiii " ++ [10084; 65039] ++ lit ", asal jawab was ")%N.
Definition MSG_MAGIC : jsstring :=
  lit "Mubarak number(part of it)!!!! if you click aik aur baar toh answer ajaye ga so...".
Definition MSG_ANSWER_PREFIX : jsstring := lit "jawab is ".
Definition MSG_NO_HINTS : jsstring :=
  (lit "Hiii " ++ [129402] ++ lit " + " ++ [128037]
   ++ lit " no hints for you sorry!...but i believe in you bohat "
   ++ [10084; 65039] ++ lit " You can do it ")%N.

(** [evaluation.every((s) => s === 'correct')]. *)
Definition allCorrect (evaluation : list LetterStatus) : bool :=
  forallb (fun s => bool_decide (s = Correct)) evaluation.

(** [handleHintClick()]. *)
Definition handleHintClick (w : World) : World :=
  let w1 := updGame (fun g => setHintClickCount (S (hintClickCount g)) g) w in
  if decide (hintClickCount (game w1) = HINT_MAGIC_NUMBER) then
    showToast MSG_MAGIC w1
  else if decide (HINT_MAGIC_NUMBER < hintClickCount (game w1)) then
    updGame (setHintClickCount 0)
      (showToast (MSG_ANSWER_PREFIX ++ secretWord (game w1)) w1)
  else
    showToast MSG_NO_HINTS w1.

Section Engine.

(** The global [WORDS], today's date as [getUSToday()] sees it, and the
    test [keyboardEl.querySelector('.key[data-letter=...]')] of the page's
    on-screen keyboard (the page itself is not part of the scripts). *)
Variable words : list jsstring.
Variable today : DayKey.
Variable hasKey : jsstring -> bool.

(** The callback that [submitGuess] hands to [setTimeout]. *)
Definition submitCallback (guessWord : jsstring) (evaluation : list LetterStatus)
    (w : World) : World :=
  let g := game w in
  let row := S (currentRow g) in
  let atts := attempts g ++ [guessWord] in
  let evs := evaluations g ++ [evaluation] in
  let finished (isWon : bool) : Game :=
    {| secretWord := secretWord g; secretLetters := secretLetters g;
       currentGuess := currentGuess g; attempts := atts; evaluations := evs;
       currentRow := row; gameOver := true; won := isWon;
       hintClickCount := hintClickCount g |} in
  if allCorrect evaluation then
    setItem (saveDailyState (getUSToday today) atts true true)
      (showToast MSG_CONGRATS
         (setItem (markPlayed (getUSToday today) atts true)
            (setGame (finished true) w)))
  else if decide (MAX_ATTEMPTS <= row) then
    setItem (saveDailyState (getUSToday today) atts true false)
      (showToast (MSG_LOST_PREFIX ++ secretWord g)
         (setItem (markPlayed (getUSToday today) atts false)
            (setGame (finished false) w)))
  else
    setItem (saveDailyState (getUSToday today) atts false false)
      (setGame
         {| secretWord := secretWord g; secretLetters := secretLetters g;
            currentGuess := []; attempts := atts; evaluations := evs;
            currentRow := row; gameOver := gameOver g; won := won g;
            hintClickCount := hintClickCount g |} w).

(** [submitGuess()]. *)
Definition submitGuess (w : World) : World :=
  let g := game w in
  if decide (length (currentGuess g) ≠ WORD_LENGTH) then
    showToast MSG_FOUR_LETTERS w
  else
    let guessWord := join (currentGuess g) in
    if negb (includes words guessWord) then
      showToast MSG_NOT_IN_LIST w
    else
      let evaluation := evaluateGuess (secretLetters g) guessWord in
      setTimeout guessWord evaluation w.

(** [handleKey(letter)]. *)
Definition handleKey (key : jsstring) (w : World) : World :=
  let g := game w in
  if gameOver g then w
  else if decide (key = lit "backspace") then
    if decide (0 < length (currentGuess g))
    then updGame (setCurrentGuess (removelast (currentGuess g))) w
    else w
  else if decide (key = lit "enter") then
    submitGuess w
  else if decide (length (currentGuess g) < WORD_LENGTH) then
    updGame (setCurrentGuess (currentGuess g ++ [key])) w
  else w.

(** [handlePhysicalKey(e)], with [e.key] as argument. *)
Definition handlePhysicalKey (key : jsstring) (w : World) : World :=
  if gameOver (game w) then w
  else if decide (key = lit "Enter") then submitGuess w
  else if decide (key = lit "Backspace") then handleKey (lit "backspace") w
  else if hasKey key then handleKey key w
  else w.

(** [restoreState(saved)]. *)
Definition restoreState (saved : SavedState) (w : World) : World :=
  let g := game w in
  let atts := default [] (saved_attempts saved) in
  let over := default false (saved_gameOver saved) in
  let evs :=
    fold_left (fun evs guess => evs ++ [evaluateGuess (secretLetters g) guess])
      atts (evaluations g) in
  setGame
    {| secretWord := secretWord g; secretLetters := secretLetters g;
       currentGuess := if over then currentGuess g else [];
       attempts := atts; evaluations := evs;
       currentRow := length atts; gameOver := over;
       won := default false (saved_won saved);
       hintClickCount := hintClickCount g |} w.

(** [Array.from(v)] for a value that is a string or [undefined]. *)
Definition splitUrdu_value (v : option jsstring) : completion (list letter) :=
  match v with
  | Some word => Return (splitUrdu word)
  | None => Throw TypeError
  end.

(** The [DOMContentLoaded] handler, up to the binding of the listeners,
    started on the slot [slot]. *)
Definition onLoad (slot : option item) : completion World :=
  word ← getDailyWord words today;
  letters ← splitUrdu_value word;
  let w :=
    {| game :=
         {| secretWord := default [] word; secretLetters := letters;
            currentGuess := []; attempts := []; evaluations := [];
            currentRow := 0; gameOver := false; won := false;
            hintClickCount := 0 |};
       storage := slot; timers := []; toasts := [] |} in
  saved ← loadDailyState (getUSToday today) slot;
  match saved with
  | Some s =>
      if decide (saved_date s = Some (getUSToday today))
      then Return (restoreState s w) else Return w
  | None => Return w
  end.

(** What can happen after loading: a click on an on-screen key, a physical
    key press, a click on the hint icon, or the oldest scheduled submission
    callback coming due. *)
Inductive event :=
  | Click (key : jsstring)
  | KeyDown (key : jsstring)
  | HintClick
  | TimerFires.

Definition step (w : World) (e : event) : World :=
  match e with
  | Click key => handleKey key w
  | KeyDown key => handlePhysicalKey key w
  | HintClick => handleHintClick w
  | TimerFires =>
      match timers w with
      | [] => w
      | (guessWord, evaluation) :: rest =>
          submitCallback guessWord evaluation
            {| game := game w; storage := storage w; timers := rest;
               toasts := toasts w |}
      end
  end.

Definition run (w : World) (es : list event) : World := fold_left step es w.

End Engine.

(** ** History rows ([addHistoryRow]) *)

(** The number shown in the badge of a history row:
    [evaluation.filter((s) => s === 'correct').length].  The row is styled
    as a success when [allCorrect evaluation] holds. *)
Definition matchCount (evaluation : list LetterStatus) : nat :=
  length (filter (fun s => s = Correct) evaluation).

(** ** Keyboard colours ([updateKeyboard]) *)

(** [priority[status]]. *)
Definition priority (status : LetterStatus) : nat :=
  match status with
  | Correct => 3
  | Present => 2
  | Absent => 1
  end.

(** [current ? priority[current] : 0]. *)
Definition currentPriority (current : option LetterStatus) : nat :=
  match current with
  | Some status => priority status
  | None => 0
  end.

(** Body of the loop of [updateKeyboard] over the letters of the guess.
    Past the end of [evaluation] the status is [undefined], its priority is
    [undefined], and the comparison is false. *)
Definition updateKeyStep (letters : list letter) (evaluation : list LetterStatus)
    (keyStates : gmap letter LetterStatus) (i : nat) : gmap letter LetterStatus :=
  match letters !! i, evaluation !! i with
  | Some c, Some status =>
      if decide (currentPriority (keyStates !! c) < priority status)
      then <[c := status]> keyStates
      else keyStates
  | _, _ => keyStates
  end.

(** [updateKeyboard(guess, evaluation)] on the object [keyStates]; the
    repainting of the keys is left out. *)
Definition updateKeyboard (keyStates : gmap letter LetterStatus)
    (guess : jsstring) (evaluation : list LetterStatus)
    : gmap letter LetterStatus :=
  let letters := splitUrdu guess in
  fold_left (updateKeyStep letters evaluation) (seq 0 (length letters)) keyStates.

(** ** Countdown ([getTimeToMidnight], [showCountdownBanner]) *)

Record TimeLeft := { hours : Z; minutes : Z; seconds : Z }.

(** [getTimeToMidnight()], with the hour, minute and second that the
    formatter shows for America/New_York as arguments. *)
Definition getTimeToMidnight (h m s : Z) : TimeLeft :=
  let totalSecondsLeft := ((23 - h) * 3600 + (59 - m) * 60 + (60 - s))%Z in
  {| hours := (totalSecondsLeft / 3600)%Z;
     minutes := (Z.rem totalSecondsLeft 3600 / 60)%Z;
     seconds := Z.rem totalSecondsLeft 60 |}.

(** The decimal digits of a natural number, most significant first. *)
Fixpoint digitsOf (fuel : nat) (n : Z) (acc : jsstring) : jsstring :=
  match fuel with
  | 0 => acc
  | S fuel' =>
      let acc' := digit n :: acc in
      if decide (n < 10)%Z then acc' else digitsOf fuel' (n / 10) acc'
  end.

(** [String(n)] for an integer. *)
Definition String_of_Z (n : Z) : jsstring :=
  if decide (n < 0)%Z
  then 45%N :: digitsOf (S (Z.to_nat (- n))) (- n) []
  else digitsOf (S (Z.to_nat n)) n [].

(** [str.padStart(2, '0')]. *)
Definition padStart2 (str : jsstring) : jsstring :=
  replicate (2 - length str) 48%N ++ str.

(** [pad(n)] of [tick]. *)
Definition pad (n : Z) : jsstring := padStart2 (String_of_Z n).

(** The text that [tick] writes into the timer line. *)
Definition timerText (t : TimeLeft) : jsstring :=
  pad (hours t) ++ lit ":" ++ pad (minutes t) ++ lit ":" ++ pad (seconds t).

(** ** Sharing ([shareResult]) *)

Definition MSG_PLAY_FIRST : jsstring :=
  [1662; 1729; 1604; 1746; 32; 1705; 1726; 1740; 1604; 1740; 1722; 33]%N.
Definition MSG_COPY_FAILED : jsstring :=
  [1705; 1575; 1662; 1740; 32; 1606; 1729; 1740; 1722; 32; 1729; 1608; 32;
   1587; 1705; 1575]%N.
Definition SHARE_TITLE : jsstring := [1575; 1615; 1585; 1583; 1604; 32]%N.

(** The square shown for a status: green, yellow, white. *)
Definition glyph (status : LetterStatus) : jsstring :=
  match status with
  | Correct => [129001]%N
  | Present => [129000]%N
  | Absent => [11036]%N
  end.

(** The inner loop of [shareResult]: one row of squares. *)
Definition glyphRow (evaluation : list LetterStatus) : jsstring :=
  fold_left (fun row status => row ++ glyph status) evaluation [].

(** The code points that [trim] removes: white space and line
    terminators. *)
Definition isWhiteSpace (c : N) : bool :=
  bool_decide (c ∈ [9; 10; 11; 12; 13; 32; 160; 5760; 8192; 8193; 8194; 8195;
                    8196; 8197; 8198; 8199; 8200; 8201; 8202; 8232; 8233;
                    8239; 8287; 12288; 65279]%N).

Fixpoint dropWhile (f : N -> bool) (s : jsstring) : jsstring :=
  match s with
  | [] => []
  | c :: s' => if f c then dropWhile f s' else s
  end.

(** [str.trim()]. *)
Definition trim (str : jsstring) : jsstring :=
  reverse (dropWhile isWhiteSpace (reverse (dropWhile isWhiteSpace str))).

(** The text that [shareResult] builds, before it is trimmed. *)
Definition shareText (today : jsstring) (g : Game) : jsstring :=
  let text := SHARE_TITLE ++ today ++ [10%N] in
  let text :=
    text ++ (if won g then String_of_Z (Z.of_nat (currentRow g)) else lit "X")
         ++ lit "/" ++ String_of_Z (Z.of_nat MAX_ATTEMPTS) ++ [10; 10]%N in
  fold_left (fun text evaluation => text ++ glyphRow evaluation ++ [10%N])
    (evaluations g) text.

(** What [shareResult] does: it shows a message, or hands a text to the
    clipboard ([hasClipboard] tells whether [navigator.clipboard] exists;
    the message that follows the write is left out). *)
Inductive shareOutcome :=
  | ShowMessage (message : jsstring)
  | WriteClipboard (text : jsstring).

Definition shareResult (today : jsstring) (hasClipboard : bool) (g : Game)
    : shareOutcome :=
  if decide (length (attempts g) = 0) then ShowMessage MSG_PLAY_FIRST
  else if hasClipboard then WriteClipboard (trim (shareText today g))
  else ShowMessage MSG_COPY_FAILED.

(** * Vocabulary of the statements *)

(** ** The reference description of the evaluation *)

(** Number of positions below [n] that satisfy [P]. *)
Fixpoint countBelow (P : nat -> bool) (n : nat) : nat :=
  match n with
  | 0 => 0
  | S k => countBelow P k + (if P k then 1 else 0)
  end.

(** Multiplicity of [c] in the secret. *)
Definition occurrences (secret : list letter) (c : letter) : nat :=
  length (filter (fun x => x = c) secret).

(** Position [j] is an exact match on the letter [c]. *)
Definition exactAt (guess secret : list letter) (c : letter) (j : nat) : bool :=
  bool_decide (guess !! j = Some c ∧ secret !! j = Some c).

(** Position [j] carries the letter [c] and was marked present. *)
Definition presentAt (result : list LetterStatus) (guess : list letter)
    (c : letter) (j : nat) : bool :=
  bool_decide (result !! j = Some Present ∧ guess !! j = Some c).

(** Remaining count of [c] when the second pass reaches position [i]: the
    initial count, minus all exact matches, minus the present marks given at
    earlier positions. *)
Definition remaining (secret guess : list letter) (result : list LetterStatus)
    (c : letter) (i : nat) : Z :=
  (Z.of_nat (occurrences secret c)
   - Z.of_nat (countBelow (exactAt guess secret c) WORD_LENGTH)
   - Z.of_nat (countBelow (presentAt result guess c) i))%Z.

(** ** Loop invariants of [evaluateGuess] *)

(** [freq] holds the count [f c] for every letter of the secret and has no
    other property. *)
Definition holdsCounts (freq : freqmap) (secret : list letter) (f : letter -> Z) : Prop :=
  freq !! None = None ∧
  ∀ c, freq !! Some c = if decide (c ∈ secret) then Some (Num (f c)) else None.

(** State of the first loop after the positions below [k]. *)
Definition afterFirst (guess secret : list letter) (k : nat)
    (st : list LetterStatus * freqmap) : Prop :=
  length st.1 = WORD_LENGTH ∧
  (∀ j, j < WORD_LENGTH →
     st.1 !! j
     = Some (if decide (j < k ∧ guess !! j = secret !! j) then Correct else Absent)) ∧
  holdsCounts st.2 secret
    (fun c => (Z.of_nat (occurrences secret c)
               - Z.of_nat (countBelow (exactAt guess secret c) k))%Z).

(** State of the second loop after the positions below [k]. *)
Definition afterSecond (guess secret : list letter) (k : nat)
    (st : list LetterStatus * freqmap) : Prop :=
  length st.1 = WORD_LENGTH ∧
  (∀ j, j < WORD_LENGTH →
     (st.1 !! j = Some Correct ↔ guess !! j = secret !! j)) ∧
  (∀ j, k <= j < WORD_LENGTH → guess !! j ≠ secret !! j →
     st.1 !! j = Some Absent) ∧
  (∀ j, j < k → guess !! j ≠ secret !! j →
     match guess !! j with
     | Some c =>
         st.1 !! j
         = Some (if decide (0 < remaining secret guess st.1 c j)%Z
                 then Present else Absent)
     | None => st.1 !! j = Some Absent
     end) ∧
  holdsCounts st.2 secret (fun c => remaining secret guess st.1 c k).

(** ** The state machine *)

(** The most recent evaluation, if any, is all correct. *)
Definition lastAllCorrect (evs : list (list LetterStatus)) : bool :=
  match last evs with
  | Some evaluation => allCorrect evaluation
  | None => false
  end.

(** The invariant of the game state. *)
Definition invariant (g : Game) : Prop :=
  length (attempts g) <= MAX_ATTEMPTS ∧
  (gameOver g = true
   ↔ lastAllCorrect (evaluations g) = true ∨ length (attempts g) = MAX_ATTEMPTS) ∧
  (won g = true ↔ gameOver g = true ∧ lastAllCorrect (evaluations g) = true).

(** The fields that a rejected submission must leave alone. *)
Definition core (g : Game)
    : list jsstring * list (list LetterStatus) * bool * bool * nat :=
  (attempts g, evaluations g, gameOver g, won g, currentRow g).

(** The state in which a game starts when nothing is restored. *)
Definition freshWorld (word : jsstring) (slot : option item) : World :=
  {| game :=
       {| secretWord := word; secretLetters := splitUrdu word;
          currentGuess := []; attempts := []; evaluations := [];
          currentRow := 0; gameOver := false; won := false;
          hintClickCount := 0 |};
     storage := slot; timers := []; toasts := [] |}.

(** ** Sample states *)

Definition sampleDay : DayKey := {| year := 2026; month := 11; day := 2 |}.

(** The secret of [sampleDay], no attempt yet, and the four letters of the
    first word of the list typed. *)
Definition sampleWorld : World :=
  {| game :=
       {| secretWord := [1586; 1575; 1729; 1583]%N;
          secretLetters := [1586; 1575; 1729; 1583]%N;
          currentGuess := [[1591]; [1575]; [1729]; [1585]]%N;
          attempts := []; evaluations := []; currentRow := 0;
          gameOver := false; won := false; hintClickCount := 0 |};
     storage := None; timers := []; toasts := [] |}.

Definition noPhysicalKeys : jsstring -> bool := fun _ => false.

(** The secret of [sampleDay] typed on the first row. *)
Definition typedSecretWorld : World :=
  updGame (setCurrentGuess [[1586]; [1575]; [1729]; [1583]]%N) sampleWorld.


(** The clicks that type a word, one on-screen key per letter. *)
Definition typeWord (word : jsstring) : list event :=
  map (fun c => Click [c]) word.

(** A word typed and submitted, and its callback coming due before
    anything else happens. *)
Definition playWord (word : jsstring) : list event :=
  typeWord word ++ [Click (lit "enter"); TimerFires].

(** The game of [sampleDay], loaded with an empty slot, after four misses
    played one after the other and with a fifth word typed on the last
    row. *)
Definition fifthRowWorld : World :=
  run WORDS sampleDay noPhysicalKeys
    (freshWorld [1586; 1575; 1729; 1583]%N None)
    (playWord [1591; 1575; 1729; 1585]%N ++ playWord [1605; 1606; 1583; 1585]%N
     ++ playWord [1576; 1575; 1583; 1604]%N ++ playWord [1605; 1575; 1580; 1583]%N
     ++ typeWord [1580; 1575; 1729; 1604]%N).

(** The secret submitted, then replaced on the row by another word that is
    submitted too before the first callback runs; then both callbacks. *)
Definition lateMissEvents : list event :=
  [Click (lit "enter"); Click (lit "backspace"); Click (lit "backspace");
   Click (lit "backspace"); Click (lit "backspace")]
  ++ typeWord [1591; 1575; 1729; 1585]%N
  ++ [Click (lit "enter"); TimerFires; TimerFires].

(** One letter typed. *)
Definition shortWorld : World :=
  updGame (setCurrentGuess [[1591]%N]) sampleWorld.


(** The game of [sampleDay] won at the first attempt. *)
Definition wonWorld : World :=
  {| game :=
       {| secretWord := [1586; 1575; 1729; 1583]%N;
          secretLetters := [1586; 1575; 1729; 1583]%N;
          currentGuess := [[1586]; [1575]; [1729]; [1583]]%N;
          attempts := [[1586; 1575; 1729; 1583]%N];
          evaluations := [[Correct; Correct; Correct; Correct]];
          currentRow := 1;
          gameOver := true; won := true; hintClickCount := 0 |};
     storage := saveDailyState (getUSToday sampleDay)
                  [[1586; 1575; 1729; 1583]%N] true true;
     timers := []; toasts := [MSG_CONGRATS] |}.

(** A record dated [sampleDay] whose only attempt is the secret of that day
    but whose flags say that the game is still running. *)
Definition inconsistentSlot : option item :=
  Some (Json (PValue {| saved_date := Some (getUSToday sampleDay);
                        saved_attempts := Some [[1586; 1575; 1729; 1583]%N];
                        saved_gameOver := Some false;
                        saved_won := Some false |})).

(** ** Counting marks *)

(** Position [j] of [l] carries the letter [c]. *)
Definition letterAt (l : list letter) (c : letter) (j : nat) : bool :=
  bool_decide (l !! j = Some c).

(** Position [j] carries [c] in the guess and another letter, or none, in the
    secret. *)
Definition displacedAt (guess secret : list letter) (c : letter) (j : nat) : bool :=
  bool_decide (guess !! j = Some c ∧ secret !! j ≠ Some c).

(** Position [j] carries [c] and was marked correct or present. *)
Definition markedAt (result : list LetterStatus) (guess : list letter)
    (c : letter) (j : nat) : bool :=
  bool_decide (guess !! j = Some c
               ∧ (result !! j = Some Correct ∨ result !! j = Some Present)).

(** Position [j] is an exact match, whatever the letter. *)
Definition matchAt (guess secret : list letter) (j : nat) : bool :=
  bool_decide (guess !! j = secret !! j).

(** ** Keyboard colours *)

(** The best priority that the evaluation gives to the letter [c] at the
    positions below [n]; [0] when it gives none. *)
Fixpoint bestBelow (letters : list letter) (evaluation : list LetterStatus)
    (c : letter) (n : nat) : nat :=
  match n with
  | 0 => 0
  | S k =>
      bestBelow letters evaluation c k
      `max` (if decide (letters !! k = Some c)
             then currentPriority (evaluation !! k) else 0)
  end.

(** [keyStates] after the attempts have been shown one after the other, each
    with its evaluation against the secret, as the submission callback and
    [restoreState] do. *)
Definition keyStatesAfter (secret : list letter) (attempts : list jsstring)
    : gmap letter LetterStatus :=
  fold_left (fun ks guess => updateKeyboard ks guess (evaluateGuess secret guess))
    attempts ∅.

(** ** Invariants of a running game *)

(** Every recorded evaluation is the evaluation of its attempt against the
    secret, and every scheduled callback carries the evaluation of its
    guess. *)
Definition replayable (w : World) : Prop :=
  evaluations (game w)
  = map (evaluateGuess (secretLetters (game w))) (attempts (game w)) ∧
  Forall (fun p => p.2 = evaluateGuess (secretLetters (game w)) p.1) (timers w).

(** The bookkeeping of a game that was played through the handlers. *)
Definition wellPlayed (words : list jsstring) (w : World) : Prop :=
  currentRow (game w) = length (attempts (game w)) ∧
  length (currentGuess (game w)) <= WORD_LENGTH ∧
  Forall (fun guess => guess ∈ words) (attempts (game w)) ∧
  Forall (fun p => p.1 ∈ words) (timers w) ∧
  (gameOver (game w) = false →
     length (attempts (game w)) < MAX_ATTEMPTS ∧
     Forall (fun e => allCorrect e = false) (evaluations (game w))) ∧
  (won (game w) = true →
     gameOver (game w) = true ∧
     Exists (fun e => allCorrect e = true) (evaluations (game w))).

(** The fields that only the submission callback and [restoreState] write. *)
Definition sameHistory (g g' : Game) : Prop :=
  secretWord g' = secretWord g ∧ secretLetters g' = secretLetters g ∧
  attempts g' = attempts g ∧ evaluations g' = evaluations g ∧
  currentRow g' = currentRow g ∧ gameOver g' = gameOver g ∧ won g' = won g.


(** The attempts that loading would restore from a slot. *)
Definition storedAttempts (today : jsstring) (slot : option item) : list jsstring :=
  match loadDailyState today slot with
  | Return (Some saved) => default [] (saved_attempts saved)
  | _ => []
  end.


(** A slot that gives no record for today (it is empty, does not parse,
    parses to [null], or holds a record of another day), or that holds a
    record as [saveDailyState] writes it today. *)
Definition usualSlot (today : jsstring) (slot : option item) : Prop :=
  loadDailyState today slot = Return None ∨
  ∃ atts over wn, slot = saveDailyState today atts over wn.

(** A calendar date with a four-digit year. *)
Definition validDay (k : DayKey) : Prop :=
  (0 <= year k <= 9999)%Z ∧ (1 <= month k <= 12)%Z ∧ (1 <= day k <= 31)%Z.

(** ** Share text *)

(** Rows separated by line feeds, with none at the end. *)
Definition joinLines (rows : list jsstring) : jsstring :=
  match rows with
  | [] => []
  | row :: rest => row ++ concat (map (fun r => 10%N :: r) rest)
  end.

(** The first line of the score: the number of rows used, or [X]. *)
Definition score (g : Game) : jsstring :=
  if won g then String_of_Z (Z.of_nat (currentRow g)) else lit "X".

(** * Properties *)

(** ** Test vectors *)

Example evaluate_mixed :
  evaluateGuess [1;2;3;1]%N [1;1;1;4]%N = [Correct; Present; Absent; Absent].
Proof. vm_compute. reflexivity. Qed.

(** The exact match at position 1 uses up the only occurrence, so the same
    letter at position 0 stays absent. *)
Example evaluate_exact_first :
  evaluateGuess [5;1;6;7]%N [1;1;8;9]%N = [Absent; Correct; Absent; Absent].
Proof. vm_compute. reflexivity. Qed.

Example evaluate_short :
  evaluateGuess [1;2;3;1]%N [2;1]%N = [Present; Present; Absent; Absent].
Proof. vm_compute. reflexivity. Qed.

Example epoch_day_zero : daysFromEpoch {| year := 1970; month := 1; day := 1 |} = 0%Z.
Proof. reflexivity. Qed.

Example today_string :
  getUSToday {| year := 2026; month := 11; day := 2 |} = lit "2026-11-02".
Proof. reflexivity. Qed.

Example daily_word_2026_11_02 :
  getDailyWord WORDS {| year := 2026; month := 11; day := 2 |}
  = Return (Some [1586; 1575; 1729; 1583]%N).
Proof. vm_compute. reflexivity. Qed.


(** ** Frequency table and loop invariants *)

Lemma occurrences_snoc secret x c :
  occurrences (secret ++ [x]) c
  = occurrences secret c + (if decide (x = c) then 1 else 0).
Proof.
  unfold occurrences. rewrite filter_app, length_app. f_equal.
  rewrite filter_cons, filter_nil. by destruct (decide (x = c)).
Qed.

Lemma occurrences_absent secret c : c ∉ secret → occurrences secret c = 0.
Proof.
  unfold occurrences. intros Hc.
  induction secret as [|x l IH]; [done|].
  rewrite filter_cons. apply not_elem_of_cons in Hc as [Hx Hl].
  destruct (decide (x = c)); [congruence | by apply IH].
Qed.

Lemma buildFreq_snoc secret x :
  buildFreq (secret ++ [x]) = countLetter (buildFreq secret) x.
Proof. unfold buildFreq. by rewrite fold_left_app. Qed.

Lemma buildFreq_counts secret :
  holdsCounts (buildFreq secret) secret (fun c => Z.of_nat (occurrences secret c)).
Proof.
  induction secret as [|x l IH] using rev_ind.
  - split; [done|]. intros c. rewrite decide_False by apply not_elem_of_nil. done.
  - destruct IH as [IHn IHc]. rewrite buildFreq_snoc. unfold countLetter. split.
    + by rewrite lookup_insert_ne.
    + intros c. rewrite occurrences_snoc.
      destruct (decide (x = c)) as [->|Hne].
      * rewrite lookup_insert_eq, IHc.
        rewrite (decide_True (P := c ∈ l ++ [c])) by set_solver.
        destruct (decide (c ∈ l)) as [Hin|Hout]; simpl.
        -- do 2 f_equal. lia.
        -- rewrite occurrences_absent by done. done.
      * rewrite lookup_insert_ne by congruence. rewrite IHc.
        destruct (decide (c ∈ l)) as [Hin|Hout].
        -- rewrite decide_True by set_solver. do 2 f_equal. lia.
        -- rewrite decide_False by set_solver. done.
Qed.

Lemma fold_left_seq_S {A} (f : A -> nat -> A) (a : A) (n : nat) :
  fold_left f (seq 0 (S n)) a = f (fold_left f (seq 0 n) a) n.
Proof. by rewrite seq_S, fold_left_app. Qed.

Lemma decrement_counts freq secret f c :
  holdsCounts freq secret f → c ∈ secret →
  holdsCounts (decrement freq (Some c)) secret
    (fun c' => if decide (c' = c) then (f c' - 1)%Z else f c').
Proof.
  intros [Hn Hc] Hin. unfold decrement. split.
  - by rewrite lookup_insert_ne.
  - intros c'. destruct (decide (c' = c)) as [->|Hne].
    + rewrite lookup_insert_eq, Hc, !decide_True by done. done.
    + rewrite lookup_insert_ne by congruence. apply Hc.
Qed.

Lemma holdsCounts_ext freq secret f f' :
  holdsCounts freq secret f → (∀ c, f c = f' c) → holdsCounts freq secret f'.
Proof.
  intros [Hn Hc] Hf. split; [done|]. intros c. rewrite Hc, Hf. done.
Qed.

Lemma firstPass_invariant guess secret k :
  length secret = WORD_LENGTH → k <= WORD_LENGTH →
  afterFirst guess secret k
    (fold_left (firstPassStep guess secret) (seq 0 k)
       (replicate WORD_LENGTH Absent, buildFreq secret)).
Proof.
  intros Hlen. induction k as [|k IH]; intros Hk.
  - split; [|split].
    + apply length_replicate.
    + intros j Hj. cbn [fold_left seq fst]. rewrite lookup_replicate_2 by done.
      rewrite decide_False by lia. done.
    + split; cbn [fold_left seq snd]; [apply (proj1 (buildFreq_counts secret))|].
      intros c. rewrite (proj2 (buildFreq_counts secret)).
      destruct (decide (c ∈ secret)); [|done]. do 2 f_equal. simpl. lia.
  - rewrite fold_left_seq_S.
    destruct IH as (Hl & Hres & Hcnt); [lia|].
    set (st := fold_left _ _ _) in *. unfold firstPassStep.
    destruct (decide (guess !! k = secret !! k)) as [Heq|Hne].
    + destruct (lookup_lt_is_Some_2 secret k) as [c Hc]; [lia|].
      assert (c ∈ secret) as Hin by (eapply list_elem_of_lookup_2; eauto).
      rewrite Hc in Heq. rewrite Heq. split; [|split]; cbn [fst snd].
      * by rewrite length_insert.
      * intros j Hj. destruct (decide (j = k)) as [->|Hjk].
        -- rewrite list_lookup_insert_eq by lia.
           rewrite decide_True; [done|]. split; [lia | congruence].
        -- rewrite list_lookup_insert_ne by done. rewrite Hres by done.
           f_equal. destruct (decide (j < k ∧ _)) as [[? ?]|Hn].
           ++ rewrite decide_True; [done | split; [lia | done]].
           ++ rewrite decide_False; [done|]. intros [? ?]. apply Hn. split; [lia|done].
      * eapply holdsCounts_ext; [by apply decrement_counts|].
        intros c'. cbn [countBelow].
        assert (exactAt guess secret c' k = bool_decide (c' = c)) as ->.
        { unfold exactAt. apply bool_decide_ext. rewrite Heq, Hc. naive_solver. }
        destruct (decide (c' = c)) as [->|Hcc].
        -- rewrite bool_decide_eq_true_2 by done. lia.
        -- rewrite bool_decide_eq_false_2 by done. lia.
    + split; [|split]; cbn [fst snd].
      * done.
      * intros j Hj. rewrite Hres by done. f_equal.
        destruct (decide (j < k ∧ _)) as [[? ?]|Hn].
        -- rewrite decide_True; [done | split; [lia | done]].
        -- rewrite decide_False; [done|]. intros [? ?].
           destruct (decide (j = k)) as [->|?]; [done|]. apply Hn. split; [lia|done].
      * eapply holdsCounts_ext; [exact Hcnt|].
        intros c. cbn [countBelow].
        assert (exactAt guess secret c k = false) as ->; [|lia].
        unfold exactAt. apply bool_decide_eq_false_2. intros [? ?]. congruence.
Qed.

Lemma countBelow_ext P Q n :
  (∀ j, j < n → P j = Q j) → countBelow P n = countBelow Q n.
Proof.
  induction n as [|n IH]; intros H; [done|].
  simpl. rewrite IH by (intros; apply H; lia). rewrite (H n) by lia. done.
Qed.

Lemma remaining_S secret guess result c k :
  remaining secret guess result c (S k)
  = (remaining secret guess result c k
     - (if presentAt result guess c k then 1 else 0))%Z.
Proof. unfold remaining. cbn [countBelow]. destruct (presentAt _ _ _ _); lia. Qed.

Lemma remaining_insert secret guess result c j k x :
  j <= k →
  remaining secret guess (<[k := x]> result) c j = remaining secret guess result c j.
Proof.
  intros Hjk. unfold remaining. do 2 f_equal.
  apply countBelow_ext. intros i Hi. unfold presentAt.
  rewrite list_lookup_insert_ne by lia. done.
Qed.

Lemma remaining_absent_letter secret guess result c k :
  c ∉ secret → (remaining secret guess result c k <= 0)%Z.
Proof. intros Hc. unfold remaining. rewrite occurrences_absent by done. lia. Qed.

Lemma truthy_counts freq secret f c :
  holdsCounts freq secret f → (c ∉ secret → (f c <= 0)%Z) →
  truthy_and_positive (freq !! Some c) = bool_decide (0 < f c)%Z.
Proof.
  intros [_ Hc] Hout. rewrite Hc. destruct (decide (c ∈ secret)) as [Hin|Hnin]; [done|].
  simpl. symmetry. apply bool_decide_eq_false_2. specialize (Hout Hnin). lia.
Qed.

Lemma secondPass_start guess secret st :
  afterFirst guess secret WORD_LENGTH st → afterSecond guess secret 0 st.
Proof.
  intros (Hl & Hres & Hcnt). split; [done|]. split; [|split; [|split]].
  - intros j Hj. rewrite Hres by done.
    destruct (decide (j < WORD_LENGTH ∧ _)) as [[? ?]|Hn]; [done|].
    split; [done|]. intros Heq. destruct Hn. done.
  - intros j [_ Hj] Hne. rewrite Hres by done.
    rewrite decide_False; [done|]. intros [? ?]. done.
  - intros j Hj. lia.
  - eapply holdsCounts_ext; [exact Hcnt|]. intros c. unfold remaining. simpl. lia.
Qed.

Lemma secondPass_step guess secret k st :
  k < WORD_LENGTH →
  afterSecond guess secret k st →
  afterSecond guess secret (S k) (secondPassStep guess st k).
Proof.
  intros Hk (Hl & Hcor & Hrest & Hdone & Hcnt). unfold secondPassStep.
  destruct (decide (st.1 !! k = Some Correct)) as [Hck|Hnk].
  { (* already green: skipped *)
    split; [done|]. split; [done|]. split; [|split].
    - intros j Hj. apply Hrest. lia.
    - intros j Hj Hne. destruct (decide (j = k)) as [->|Hjk].
      + apply Hcor in Hck; [done | lia].
      + apply Hdone; [lia | done].
    - eapply holdsCounts_ext; [exact Hcnt|]. intros c. rewrite remaining_S.
      unfold presentAt. rewrite bool_decide_eq_false_2; [lia|].
      intros [? ?]. congruence. }
  assert (guess !! k ≠ secret !! k) as Hne.
  { intros Heq. apply Hnk. apply Hcor; [lia | done]. }
  assert (st.1 !! k = Some Absent) as Habs by (apply Hrest; [lia | done]).
  assert (∀ c, presentAt st.1 guess c k = false) as Hnotp.
  { intros c. unfold presentAt. apply bool_decide_eq_false_2.
    intros [? ?]. congruence. }
  destruct (guess !! k) as [c|] eqn:Hg.
  - rewrite (truthy_counts _ secret _ c Hcnt)
      by (apply remaining_absent_letter).
    destruct (decide (0 < remaining secret guess st.1 c k)%Z) as [Hpos|Hnpos].
    + (* marked yellow *)
      rewrite bool_decide_eq_true_2 by done.
      assert (c ∈ secret) as Hin.
      { destruct (decide (c ∈ secret)) as [|Hout]; [done|].
        pose proof (remaining_absent_letter secret guess st.1 c k Hout). lia. }
      unfold afterSecond. cbn [fst snd].
      split; [by rewrite length_insert|].
      split; [|split; [|split]].
      * intros j Hj. destruct (decide (j = k)) as [->|Hjk].
        -- rewrite list_lookup_insert_eq by lia. rewrite Hg. split; [done|].
           intros Heq. destruct Hne. done.
        -- rewrite list_lookup_insert_ne by done. by apply Hcor.
      * intros j Hj Hnej. rewrite list_lookup_insert_ne by lia.
        apply Hrest; [lia | done].
      * intros j Hj Hnej. destruct (decide (j = k)) as [->|Hjk].
        -- rewrite Hg, list_lookup_insert_eq by lia.
           rewrite remaining_insert by lia. by rewrite decide_True.
        -- rewrite list_lookup_insert_ne by done.
           specialize (Hdone j ltac:(lia) Hnej).
           destruct (guess !! j) as [c'|]; [|done].
           rewrite remaining_insert by lia. done.
      * eapply holdsCounts_ext; [by apply decrement_counts|].
        intros c'. cbn beta. rewrite remaining_S, remaining_insert by lia.
        assert (presentAt (<[k:=Present]> st.1) guess c' k = bool_decide (c' = c)) as ->.
        { unfold presentAt. apply bool_decide_ext.
          rewrite list_lookup_insert_eq by lia. rewrite Hg. naive_solver. }
        destruct (decide (c' = c)) as [->|Hcc].
        -- rewrite bool_decide_eq_true_2 by done. lia.
        -- rewrite bool_decide_eq_false_2 by done. lia.
    + (* stays grey *)
      rewrite bool_decide_eq_false_2 by done.
      split; [done|]. split; [done|]. split; [|split].
      * intros j Hj. apply Hrest. lia.
      * intros j Hj Hnej. destruct (decide (j = k)) as [->|Hjk].
        -- rewrite Hg, Habs. by rewrite decide_False.
        -- apply Hdone; [lia | done].
      * eapply holdsCounts_ext; [exact Hcnt|]. intros c'.
        rewrite remaining_S, Hnotp. lia.
  - (* no letter at this position *)
    rewrite (proj1 Hcnt). cbn [truthy_and_positive].
    split; [done|]. split; [done|]. split; [|split].
    + intros j Hj. apply Hrest. lia.
    + intros j Hj Hnej. destruct (decide (j = k)) as [->|Hjk].
      * by rewrite Hg.
      * apply Hdone; [lia | done].
    + eapply holdsCounts_ext; [exact Hcnt|]. intros c'.
      rewrite remaining_S, Hnotp. lia.
Qed.

Lemma secondPass_invariant guess secret st k :
  k <= WORD_LENGTH →
  afterSecond guess secret 0 st →
  afterSecond guess secret k
    (fold_left (secondPassStep guess) (seq 0 k) st).
Proof.
  intros Hk H0. induction k as [|k IH]; [done|].
  rewrite fold_left_seq_S. apply secondPass_step; [lia|]. apply IH. lia.
Qed.

(** The state in which [evaluateGuess] returns. *)
Lemma evaluateGuess_final secret guess :
  length secret = WORD_LENGTH →
  ∃ st, evaluateGuess secret guess = st.1 ∧
        afterSecond guess secret WORD_LENGTH st.
Proof.
  intros Hlen. unfold evaluateGuess, secondPass, firstPass, splitUrdu.
  eexists. split; [reflexivity|].
  apply secondPass_invariant; [done|]. apply secondPass_start.
  by apply firstPass_invariant.
Qed.

(** ** Evaluation *)

(** C1. For a guess and a secret of [WORD_LENGTH] letters, [evaluateGuess]
    returns [WORD_LENGTH] statuses that follow the two-pass rule: position
    [i] is correct exactly when the guess and the secret agree there; a
    position that is not an exact match is present exactly when the
    remaining count of its letter (occurrences in the secret, minus every
    exact match of that letter anywhere in the word, minus the present marks
    already given to that letter further left) is positive, and absent
    exactly when that count is not positive. *)
Theorem evaluateGuess_two_pass (secret guess : list letter) :
  length secret = WORD_LENGTH → length guess = WORD_LENGTH →
  let result := evaluateGuess secret guess in
  length result = WORD_LENGTH ∧
  ∀ i c, guess !! i = Some c →
    (result !! i = Some Correct ↔ secret !! i = Some c) ∧
    (secret !! i ≠ Some c →
       (result !! i = Some Present ↔ (0 < remaining secret guess result c i)%Z) ∧
       (result !! i = Some Absent ↔ (remaining secret guess result c i <= 0)%Z)).
Proof.
  intros Hs Hg. cbv zeta.
  destruct (evaluateGuess_final secret guess Hs)
    as (st & -> & Hl & Hcor & _ & Hdone & _).
  generalize dependent (st.1). intros result Hl Hcor Hdone. split; [done|].
  intros i c Hi.
  assert (i < WORD_LENGTH) as Hlt by (rewrite <- Hg; by eapply lookup_lt_Some).
  split.
  - rewrite Hcor by done. rewrite Hi. split; intros H; by rewrite H.
  - intros Hne. specialize (Hdone i Hlt). rewrite Hi in Hdone.
    rewrite Hdone by congruence.
    destruct (decide (0 < remaining secret guess result c i)%Z);
      split; split; intros H; try done; try lia.
Qed.

Lemma evaluateGuess_two_pass_witness :
  let secret := [1; 2; 3; 1]%N in
  let guess := [1; 1; 1; 4]%N in
  length secret = WORD_LENGTH ∧ length guess = WORD_LENGTH ∧
  let result := evaluateGuess secret guess in
  length result = WORD_LENGTH ∧
  ∀ i c, guess !! i = Some c →
    (result !! i = Some Correct ↔ secret !! i = Some c) ∧
    (secret !! i ≠ Some c →
       (result !! i = Some Present ↔ (0 < remaining secret guess result c i)%Z) ∧
       (result !! i = Some Absent ↔ (remaining secret guess result c i <= 0)%Z)).
Proof.
  split; [reflexivity|]. split; [reflexivity|].
  apply (evaluateGuess_two_pass [1; 2; 3; 1]%N [1; 1; 1; 4]%N); reflexivity.
Defined.

(** C8. A word of [WORD_LENGTH] letters evaluated against itself is correct
    at every position. *)
Theorem evaluateGuess_self (S : list letter) :
  length S = WORD_LENGTH →
  evaluateGuess S S = replicate WORD_LENGTH Correct ∧
  allCorrect (evaluateGuess S S) = true.
Proof.
  intros Hs.
  destruct (evaluateGuess_final S S Hs) as (st & Heq & Hl & Hcor & _).
  rewrite Heq.
  assert (st.1 = replicate WORD_LENGTH Correct) as ->.
  { apply list_eq. intros j. destruct (decide (j < WORD_LENGTH)) as [Hj|Hj].
    - rewrite lookup_replicate_2 by done. by apply Hcor.
    - rewrite !lookup_ge_None_2; [done | rewrite length_replicate; lia | lia]. }
  split; reflexivity.
Qed.

Lemma evaluateGuess_self_witness :
  length [1591; 1575; 1729; 1585]%N = WORD_LENGTH ∧
  evaluateGuess [1591; 1575; 1729; 1585]%N [1591; 1575; 1729; 1585]%N
    = replicate WORD_LENGTH Correct ∧
  allCorrect (evaluateGuess [1591; 1575; 1729; 1585]%N [1591; 1575; 1729; 1585]%N)
    = true.
Proof.
  split; [reflexivity|].
  apply (evaluateGuess_self [1591; 1575; 1729; 1585]%N). reflexivity.
Defined.

Lemma firstPassStep_length guess secret st i :
  length (firstPassStep guess secret st i).1 = length st.1.
Proof.
  unfold firstPassStep. destruct (decide _); [|done]. apply length_insert.
Qed.

Lemma secondPassStep_length guess st i :
  length (secondPassStep guess st i).1 = length st.1.
Proof.
  unfold secondPassStep. destruct (decide _); [done|].
  destruct (truthy_and_positive _); [|done]. apply length_insert.
Qed.

Lemma fold_left_length {A} (f : list LetterStatus * A -> nat -> list LetterStatus * A)
    (idx : list nat) (st : list LetterStatus * A) :
  (∀ st i, length (f st i).1 = length st.1) →
  length (fold_left f idx st).1 = length st.1.
Proof.
  intros Hf. revert st. induction idx as [|i idx IH]; intros st; [done|].
  simpl. rewrite IH. apply Hf.
Qed.

(** The result has [WORD_LENGTH] entries whatever the guess and the secret. *)
Lemma evaluateGuess_length secret guess :
  length (evaluateGuess secret guess) = WORD_LENGTH.
Proof.
  unfold evaluateGuess, secondPass, firstPass.
  rewrite fold_left_length by apply secondPassStep_length.
  rewrite fold_left_length by apply firstPassStep_length.
  apply length_replicate.
Qed.

(** The loop of [restoreState] appends one evaluation per stored guess. *)
Lemma replay_evaluations secret (atts : list jsstring) evs :
  fold_left (fun evs guess => evs ++ [evaluateGuess secret guess]) atts evs
  = evs ++ map (evaluateGuess secret) atts.
Proof.
  revert evs. induction atts as [|a atts IH]; intros evs; simpl.
  - by rewrite app_nil_r.
  - rewrite IH, <- app_assoc. done.
Qed.

(** C9. [evaluateGuess] is total on guess strings of any length: against a
    secret of [WORD_LENGTH] letters the result has exactly [WORD_LENGTH]
    entries, each of which is correct, present or absent, and the positions
    past the last letter of the guess are absent.  [restoreState] replays
    every stored guess string through it, with no check of length or
    membership. *)
Theorem evaluateGuess_total (secret : list letter) (guess : jsstring) :
  length secret = WORD_LENGTH →
  let result := evaluateGuess secret guess in
  length result = WORD_LENGTH ∧
  Forall (fun s => s = Correct ∨ s = Present ∨ s = Absent) result ∧
  (∀ i, length (splitUrdu guess) <= i < WORD_LENGTH → result !! i = Some Absent) ∧
  (∀ saved w,
     evaluations (game (restoreState saved w))
     = evaluations (game w)
       ++ map (evaluateGuess (secretLetters (game w)))
              (default [] (saved_attempts saved))).
Proof.
  intros Hs. cbv zeta. split; [apply evaluateGuess_length|]. split; [|split].
  - apply Forall_forall. intros s _. destruct s; auto.
  - intros i [Hi Hlt].
    destruct (evaluateGuess_final secret guess Hs)
      as (st & -> & _ & _ & _ & Hdone & _).
    specialize (Hdone i Hlt).
    unfold splitUrdu in Hi. rewrite (lookup_ge_None_2 guess i) in Hdone by done.
    apply Hdone. destruct (lookup_lt_is_Some_2 secret i) as [c Hc]; [lia|].
    by rewrite Hc.
  - intros saved w. unfold restoreState. cbn. apply replay_evaluations.
Qed.

Lemma evaluateGuess_total_witness :
  length [1; 2; 3; 1]%N = WORD_LENGTH ∧
  let result := evaluateGuess [1; 2; 3; 1]%N [2; 1]%N in
  length result = WORD_LENGTH ∧
  Forall (fun s => s = Correct ∨ s = Present ∨ s = Absent) result ∧
  (∀ i, length (splitUrdu [2; 1]%N) <= i < WORD_LENGTH → result !! i = Some Absent) ∧
  (∀ saved w,
     evaluations (game (restoreState saved w))
     = evaluations (game w)
       ++ map (evaluateGuess (secretLetters (game w)))
              (default [] (saved_attempts saved))).
Proof.
  split; [reflexivity|].
  apply (evaluateGuess_total [1; 2; 3; 1]%N [2; 1]%N). reflexivity.
Defined.

(** ** Submissions *)

Lemma lastAllCorrect_snoc evs evaluation :
  lastAllCorrect (evs ++ [evaluation]) = allCorrect evaluation.
Proof. unfold lastAllCorrect. by rewrite last_snoc. Qed.

Section EngineProperties.

Variable words : list jsstring.
Variable today : DayKey.
Variable hasKey : jsstring -> bool.

(** A submission on its own.  When nothing is still in flight, an accepted
    submission (four letters typed, the word is in the list, the game is not
    over) appends the guess and its evaluation; the game is then won if the
    evaluation is all correct, lost if it is not and the attempts have
    reached [MAX_ATTEMPTS], and still in progress otherwise.  The invariant
    of the game state is preserved, and the stored record is the new
    state.  The handlers do not ensure that nothing is in flight: see
    [overlapping_submissions]. *)
Theorem accepted_submission (w : World) :
  let g := game w in
  let guessWord := join (currentGuess g) in
  let evaluation := evaluateGuess (secretLetters g) guessWord in
  let w1 := step words today hasKey w (Click (lit "enter")) in
  let w2 := step words today hasKey w1 TimerFires in
  gameOver g = false →
  length (currentGuess g) = WORD_LENGTH →
  guessWord ∈ words →
  timers w = [] →
  currentRow g = length (attempts g) →
  invariant g →
  game w1 = g ∧ timers w1 = [(guessWord, evaluation)] ∧
  attempts (game w2) = attempts g ++ [guessWord] ∧
  evaluations (game w2) = evaluations g ++ [evaluation] ∧
  (allCorrect evaluation = true →
     gameOver (game w2) = true ∧ won (game w2) = true) ∧
  (allCorrect evaluation = false → length (attempts (game w2)) = MAX_ATTEMPTS →
     gameOver (game w2) = true ∧ won (game w2) = false) ∧
  (allCorrect evaluation = false → length (attempts (game w2)) < MAX_ATTEMPTS →
     gameOver (game w2) = false ∧ won (game w2) = false) ∧
  invariant (game w2) ∧
  currentRow (game w2) = length (attempts (game w2)) ∧
  timers w2 = [] ∧
  storage w2
  = saveDailyState (getUSToday today) (attempts (game w2))
      (gameOver (game w2)) (won (game w2)).
Proof.
  intros g guessWord evaluation w1 w2 Hover Hlen Hin Htim Hrow (Hmax & Hov & Hwon).
  assert (length (attempts g) < MAX_ATTEMPTS) as Hlt.
  { destruct (decide (length (attempts g) = MAX_ATTEMPTS)) as [Heq|]; [|lia].
    assert (gameOver g = true) by (apply Hov; by right). congruence. }
  assert (won g = false) as Hnw.
  { destruct (won g) eqn:E; [|done]. destruct Hwon as [Hw _].
    destruct (Hw eq_refl). congruence. }
  assert (w1 = setTimeout guessWord evaluation w) as Hw1.
  { subst w1. cbn [step]. unfold handleKey. fold g. rewrite Hover.
    rewrite decide_False by (by vm_compute). rewrite decide_True by done.
    unfold submitGuess. fold g. rewrite decide_False by (intros H; by apply H).
    unfold includes. rewrite bool_decide_eq_true_2 by done. done. }
  assert (w2 = submitCallback today guessWord evaluation w) as Hw2.
  { subst w2. rewrite Hw1. cbn [step setTimeout timers]. rewrite Htim.
    cbn [app]. f_equal. destruct w; cbn in *. by subst. }
  split; [by rewrite Hw1|]. split; [by rewrite Hw1; cbn; rewrite Htim|].
  rewrite Hw2. unfold submitCallback. fold g. rewrite Hrow.
  destruct (allCorrect evaluation) eqn:Hall.
  - unfold setItem, showToast, setGame, invariant.
    cbn [game attempts evaluations currentRow gameOver won storage timers].
    rewrite length_app, lastAllCorrect_snoc, Hall. cbn [length].
    repeat split; try done; try lia; auto.
  - destruct (decide (MAX_ATTEMPTS <= S (length (attempts g)))) as [Hge|Hnge].
    + unfold setItem, showToast, setGame, invariant.
      cbn [game attempts evaluations currentRow gameOver won storage timers].
      rewrite length_app, lastAllCorrect_snoc, Hall. cbn [length].
      repeat split; try done; try lia; auto.
    + unfold setItem, showToast, setGame, invariant.
      cbn [game attempts evaluations currentRow gameOver won storage timers].
      rewrite length_app, lastAllCorrect_snoc, Hall. cbn [length]. fold g.
      rewrite Hover, Hnw.
      repeat split; try done; try lia; auto.
Qed.

Lemma handleKey_over key w :
  gameOver (game w) = true → handleKey words key w = w.
Proof. intros H. unfold handleKey. by rewrite H. Qed.

Lemma handlePhysicalKey_over key w :
  gameOver (game w) = true → handlePhysicalKey words hasKey key w = w.
Proof. intros H. unfold handlePhysicalKey. by rewrite H. Qed.

Lemma handleHintClick_core w :
  core (game (handleHintClick w)) = core (game w) ∧
  timers (handleHintClick w) = timers w ∧
  storage (handleHintClick w) = storage w.
Proof.
  unfold handleHintClick.
  repeat (destruct (decide _)); done.
Qed.

(** Once the game is over and nothing is in flight, no event changes the
    core of the state. *)
Lemma run_over es : ∀ w,
  gameOver (game w) = true → timers w = [] →
  core (game (run words today hasKey w es)) = core (game w) ∧
  timers (run words today hasKey w es) = [] ∧
  storage (run words today hasKey w es) = storage w.
Proof.
  induction es as [|e es IH]; intros w Hover Htim; [done|].
  unfold run in *. cbn [fold_left].
  assert (core (game (step words today hasKey w e)) = core (game w)
          ∧ timers (step words today hasKey w e) = timers w
          ∧ storage (step words today hasKey w e) = storage w) as (Hc & Ht & Hs).
  { destruct e as [key|key| |]; cbn [step].
    - by rewrite handleKey_over.
    - by rewrite handlePhysicalKey_over.
    - apply handleHintClick_core.
    - by rewrite Htim. }
  destruct (IH (step words today hasKey w e)) as (IH1 & IH2 & IH3).
  - unfold core in Hc. congruence.
  - congruence.
  - repeat split; congruence.
Qed.




End EngineProperties.

Lemma accepted_submission_witness :
  let w := sampleWorld in
  let w2 := step WORDS sampleDay noPhysicalKeys
              (step WORDS sampleDay noPhysicalKeys w (Click (lit "enter")))
              TimerFires in
  gameOver (game w) = false ∧
  length (currentGuess (game w)) = WORD_LENGTH ∧
  join (currentGuess (game w)) ∈ WORDS ∧
  timers w = [] ∧
  currentRow (game w) = length (attempts (game w)) ∧
  invariant (game w) ∧
  attempts (game w2) = [[1591; 1575; 1729; 1585]%N] ∧
  invariant (game w2).
Proof.
  assert (join (currentGuess (game sampleWorld)) ∈ WORDS) as Hin
    by apply list_elem_of_here.
  assert (invariant (game sampleWorld)) as Hinv.
  { unfold invariant. cbn. split; [lia|].
    split; split; intros H; try discriminate; destruct H; discriminate. }
  pose proof (accepted_submission WORDS sampleDay noPhysicalKeys sampleWorld
                eq_refl eq_refl Hin eq_refl eq_refl Hinv)
    as (_ & _ & Hatt & _ & _ & _ & _ & Hinv2 & _).
  exact (conj eq_refl (conj eq_refl (conj Hin (conj eq_refl (conj eq_refl
           (conj Hinv (conj Hatt Hinv2))))))).
Defined.

(** The hypothesis [timers w = []] of [accepted_submission] is needed: a
    second Enter pressed before the callback of the first has run is
    accepted as well, and both callbacks append. *)
Remark overlapping_submissions :
  let w := run WORDS sampleDay noPhysicalKeys typedSecretWorld
             [Click (lit "enter"); Click (lit "enter"); TimerFires; TimerFires] in
  attempts (game w) = [[1586; 1575; 1729; 1583]; [1586; 1575; 1729; 1583]]%N ∧
  currentRow (game w) = 2 ∧ gameOver (game w) = true ∧ won (game w) = true.
Proof. vm_compute. repeat split. Qed.

(** C3. The handlers accept a submission while an earlier one is still in
    its animation delay, and the invariant is then not preserved.  In the
    game of [sampleDay], loaded from an empty slot, with four misses played
    and a listed word typed on the fifth row, the invariant holds, the game
    is not over and nothing is in flight; Enter pressed twice is accepted
    twice, and when both callbacks have run there are six attempts, more
    than [MAX_ATTEMPTS]. *)
Theorem double_enter_exceeds_rows :
  let w := fifthRowWorld in
  let accepted :=
    run WORDS sampleDay noPhysicalKeys w
      [Click (lit "enter"); Click (lit "enter")] in
  let w' := run WORDS sampleDay noPhysicalKeys accepted [TimerFires; TimerFires] in
  onLoad WORDS sampleDay None
  = Return (freshWorld [1586; 1575; 1729; 1583]%N None) ∧
  (invariant (game w) ∧ gameOver (game w) = false ∧ timers w = [] ∧
   length (attempts (game w)) = 4 ∧
   length (currentGuess (game w)) = WORD_LENGTH ∧
   join (currentGuess (game w)) ∈ WORDS) ∧
  length (timers accepted) = 2 ∧
  length (attempts (game w')) = 6 ∧
  MAX_ATTEMPTS < length (attempts (game w')) ∧
  ¬ invariant (game w').
Proof.
  assert (length (attempts (game fifthRowWorld)) = 4) as Ha
    by (vm_compute; reflexivity).
  assert (gameOver (game fifthRowWorld) = false) as Hg
    by (vm_compute; reflexivity).
  assert (won (game fifthRowWorld) = false) as Hw
    by (vm_compute; reflexivity).
  assert (lastAllCorrect (evaluations (game fifthRowWorld)) = false) as Hl
    by (vm_compute; reflexivity).
  assert (length (attempts (game
            (run WORDS sampleDay noPhysicalKeys
               (run WORDS sampleDay noPhysicalKeys fifthRowWorld
                  [Click (lit "enter"); Click (lit "enter")])
               [TimerFires; TimerFires]))) = 6) as Ha'
    by (vm_compute; reflexivity).
  cbv zeta. split; [reflexivity|]. split; [|split; [|split; [|split]]].
  - split.
    + unfold invariant. rewrite Ha, Hg, Hw, Hl. unfold MAX_ATTEMPTS.
      split; [lia|]. split; split.
      * intros H; discriminate H.
      * intros [H|H]; discriminate H.
      * intros H; discriminate H.
      * intros [H _]; discriminate H.
    + split; [exact Hg|]. split; [vm_compute; reflexivity|].
      split; [exact Ha|]. split; [vm_compute; reflexivity|].
      apply (bool_decide_eq_true_1 _). vm_compute. reflexivity.
  - vm_compute. reflexivity.
  - exact Ha'.
  - rewrite Ha'. unfold MAX_ATTEMPTS. lia.
  - unfold invariant. rewrite Ha'. unfold MAX_ATTEMPTS. intros [H _]. lia.
Qed.

(** A callback that comes due after the winning one runs the branch that
    continues the game: the flags in memory stay set, but the record it
    saves says that the game is neither over nor won, and loading that
    record gives an open game. *)
Remark late_callback_reopens_game :
  let w := run WORDS sampleDay noPhysicalKeys typedSecretWorld lateMissEvents in
  gameOver (game w) = true ∧ won (game w) = true ∧
  attempts (game w) = [[1586; 1575; 1729; 1583]; [1591; 1575; 1729; 1585]]%N ∧
  storage w
  = saveDailyState (getUSToday sampleDay)
      [[1586; 1575; 1729; 1583]; [1591; 1575; 1729; 1585]]%N false false ∧
  match onLoad WORDS sampleDay (storage w) with
  | Return w1 => gameOver (game w1) = false ∧ won (game w1) = false
  | Throw _ => False
  end.
Proof. vm_compute. repeat split. Qed.


(** ** Persistence *)

(** C7. [loadDailyState] never throws.  It returns [null] when the slot is
    empty, when the stored text does not parse (or parses to [null]), and
    when the date of the stored record is not today's; it returns the
    stored record exactly when the text parses to a record dated today.  On
    [null] the game starts fresh. *)
Theorem loadDailyState_fail_open (today : jsstring) (slot : option item) :
  (∀ e, loadDailyState today slot ≠ Throw e) ∧
  (slot = None → loadDailyState today slot = Return None) ∧
  (slot = Some EmptyString ∨ slot = Some Unparsable ∨ slot = Some (Json PNull) →
     loadDailyState today slot = Return None) ∧
  (∀ r, slot = Some (Json (PValue r)) → saved_date r ≠ Some today →
     loadDailyState today slot = Return None) ∧
  (∀ r, loadDailyState today slot = Return (Some r)
        ↔ slot = Some (Json (PValue r)) ∧ saved_date r = Some today) ∧
  (∀ words day word,
     getUSToday day = today →
     getDailyWord words day = Return (Some word) →
     loadDailyState today slot = Return None →
     onLoad words day slot = Return (freshWorld word slot)).
Proof.
  split; [|split; [|split; [|split; [|split]]]].
  - intros e. unfold loadDailyState.
    destruct slot as [[| |[|r]]|]; cbn; try done.
    by destruct (decide _).
  - by intros ->.
  - by intros [->|[->| ->]].
  - intros r -> Hne. unfold loadDailyState. cbn. by rewrite decide_True.
  - intros r. unfold loadDailyState. split.
    + destruct slot as [[| |[|r']]|]; cbn; try done.
      destruct (decide (saved_date r' ≠ Some today)) as [|Heq]; cbn; [done|].
      intros [= ->]. split; [done|].
      by destruct (decide (saved_date r = Some today)).
    + intros [-> Hd]. cbn. rewrite decide_False; [done|]. intros H. by apply H.
  - intros words day word <- Hw Hl. unfold onLoad. rewrite Hw. cbn.
    rewrite Hl. done.
Qed.

Lemma loadDailyState_fail_open_witness :
  loadDailyState (getUSToday sampleDay) None = Return None ∧
  loadDailyState (getUSToday sampleDay) (Some Unparsable) = Return None ∧
  loadDailyState (getUSToday sampleDay)
    (saveDailyState (lit "2026-11-01") [] false false) = Return None ∧
  onLoad WORDS sampleDay (Some Unparsable)
  = Return (freshWorld [1586; 1575; 1729; 1583]%N (Some Unparsable)).
Proof.
  split; [|split; [|split]].
  - exact (proj1 (proj2 (loadDailyState_fail_open (getUSToday sampleDay) None))
             eq_refl).
  - exact (proj1 (proj2 (proj2
             (loadDailyState_fail_open (getUSToday sampleDay) (Some Unparsable))))
             (or_intror (or_introl eq_refl))).
  - refine (proj1 (proj2 (proj2 (proj2
             (loadDailyState_fail_open (getUSToday sampleDay)
                (saveDailyState (lit "2026-11-01") [] false false)))))
             _ eq_refl _).
    cbn. intros H. discriminate H.
  - exact (proj2 (proj2 (proj2 (proj2 (proj2
             (loadDailyState_fail_open (getUSToday sampleDay) (Some Unparsable))))))
             WORDS sampleDay _ eq_refl eq_refl eq_refl).
Defined.

(** Restoring takes the flags from the record: here the replayed attempt is
    all correct, and the restored game is neither over nor won. *)
Lemma restore_keeps_persisted_flags :
  match onLoad WORDS sampleDay inconsistentSlot with
  | Return w =>
      lastAllCorrect (evaluations (game w)) = true ∧
      gameOver (game w) = false ∧ won (game w) = false ∧
      ¬ invariant (game w)
  | Throw _ => False
  end.
Proof.
  vm_compute. split; [reflexivity|]. split; [reflexivity|]. split; [reflexivity|].
  intros (_ & Hover & _). destruct Hover as [_ Hover].
  discriminate (Hover (or_introl eq_refl)).
Qed.

(** What was saved today is what is loaded today. *)
Lemma load_after_save today atts over wn :
  loadDailyState today (saveDailyState today atts over wn)
  = Return (Some {| saved_date := Some today; saved_attempts := Some atts;
                    saved_gameOver := Some over; saved_won := Some wn |}).
Proof.
  unfold loadDailyState, saveDailyState. cbn.
  rewrite decide_False; [done|]. intros H. by apply H.
Qed.

(** C2 (amended). [restoreState] takes the attempts from the record,
    re-derives every evaluation by running [evaluateGuess] against the
    current secret (the record holds no evaluations), and takes [gameOver]
    and [won] from the flags of the record, [false] when a flag is missing.
    Saving a game state, loading it the same day and restoring gives back
    the same attempts and the same flags. *)
Theorem restoreState_replays (words : list jsstring) (today : DayKey)
    (saved : SavedState) (w : World) (g : Game) (word : jsstring) :
  (let w' := restoreState saved w in
   attempts (game w') = default [] (saved_attempts saved) ∧
   evaluations (game w')
   = evaluations (game w)
     ++ map (evaluateGuess (secretLetters (game w))) (attempts (game w')) ∧
   gameOver (game w') = default false (saved_gameOver saved) ∧
   won (game w') = default false (saved_won saved) ∧
   currentRow (game w') = length (attempts (game w'))) ∧
  (getDailyWord words today = Return (Some word) →
   ∃ w',
     onLoad words today
       (saveDailyState (getUSToday today) (attempts g) (gameOver g) (won g))
     = Return w' ∧
     secretWord (game w') = word ∧
     attempts (game w') = attempts g ∧
     evaluations (game w') = map (evaluateGuess (splitUrdu word)) (attempts g) ∧
     gameOver (game w') = gameOver g ∧
     won (game w') = won g).
Proof.
  split.
  - unfold restoreState. cbn. rewrite replay_evaluations. done.
  - intros Hw. unfold onLoad. rewrite Hw, load_after_save. cbn.
    rewrite decide_True by done. eexists. split; [reflexivity|].
    unfold restoreState. cbn. rewrite replay_evaluations. done.
Qed.

Lemma restoreState_replays_witness :
  getDailyWord WORDS sampleDay = Return (Some [1586; 1575; 1729; 1583]%N) ∧
  ∃ w',
    onLoad WORDS sampleDay
      (saveDailyState (getUSToday sampleDay) (attempts (game wonWorld))
         (gameOver (game wonWorld)) (won (game wonWorld)))
    = Return w' ∧
    secretWord (game w') = [1586; 1575; 1729; 1583]%N ∧
    attempts (game w') = attempts (game wonWorld) ∧
    evaluations (game w')
    = map (evaluateGuess (splitUrdu [1586; 1575; 1729; 1583]%N))
        (attempts (game wonWorld)) ∧
    gameOver (game w') = gameOver (game wonWorld) ∧
    won (game w') = won (game wonWorld).
Proof.
  split; [reflexivity|].
  exact (proj2 (restoreState_replays WORDS sampleDay
                  {| saved_date := None; saved_attempts := None;
                     saved_gameOver := None; saved_won := None |}
                  sampleWorld (game wonWorld) [1586; 1575; 1729; 1583]%N)
           eq_refl).
Defined.

(** ** Daily word *)

Example epoch_day_one : daysFromEpoch {| year := 1970; month := 1; day := 2 |} = 1%Z.
Proof. reflexivity. Qed.

Example epoch_day_leap : daysFromEpoch {| year := 2024; month := 2; day := 29 |} = 19782%Z.
Proof. reflexivity. Qed.

Example epoch_day_after_leap :
  daysFromEpoch {| year := 2024; month := 3; day := 1 |} = 19783%Z.
Proof. reflexivity. Qed.

Example epoch_day_sample : daysFromEpoch sampleDay = 20759%Z.
Proof. reflexivity. Qed.

(** [Math.floor(epoch / 86400000)] is the day count itself. *)
Lemma dayIndex_exact (k : DayKey) :
  (dateGetTime k / 86400000 = daysFromEpoch k)%Z.
Proof. unfold dateGetTime. apply Z.div_mul. lia. Qed.

Lemma getDailyWord_index (words : list jsstring) (k : DayKey) :
  words ≠ [] → (0 <= daysFromEpoch k)%Z →
  getDailyWord words k
  = Return (words !! Z.to_nat (daysFromEpoch k mod Z.of_nat (length words))).
Proof.
  intros Hne Hpos. unfold getDailyWord. rewrite dayIndex_exact.
  assert (0 < Z.of_nat (length words))%Z as Hlen.
  { destruct words; [done | cbn; lia]. }
  unfold js_rem. rewrite decide_False by lia.
  rewrite Z.rem_mod_nonneg by lia. unfold js_index.
  rewrite decide_False; [done|].
  pose proof (Z.mod_pos_bound (daysFromEpoch k) (Z.of_nat (length words)) Hlen). lia.
Qed.

(** C4. For a non-empty list and a day on or after the epoch, the daily
    word is the entry of the list at index [epochDay mod length], where
    [epochDay] is the day count of the date that the reference zone shows.
    The word depends on the list and the day only, and two days whose day
    counts agree modulo the length give the same word. *)
Theorem getDailyWord_selection (words : list jsstring) (k : DayKey) :
  words ≠ [] → (0 <= daysFromEpoch k)%Z →
  (∃ word,
     getDailyWord words k = Return (Some word) ∧
     words !! Z.to_nat (daysFromEpoch k mod Z.of_nat (length words)) = Some word) ∧
  (∀ k', (0 <= daysFromEpoch k')%Z →
     (daysFromEpoch k' mod Z.of_nat (length words)
      = daysFromEpoch k mod Z.of_nat (length words))%Z →
     getDailyWord words k' = getDailyWord words k).
Proof.
  intros Hne Hpos. split.
  - rewrite getDailyWord_index by done.
    assert (0 < Z.of_nat (length words))%Z as Hlen.
    { destruct words; [done | cbn; lia]. }
    pose proof (Z.mod_pos_bound (daysFromEpoch k) (Z.of_nat (length words)) Hlen).
    destruct (lookup_lt_is_Some_2 words
                (Z.to_nat (daysFromEpoch k mod Z.of_nat (length words))))
      as [word Hword]; [lia|].
    exists word. by rewrite Hword.
  - intros k' Hpos' Heq. rewrite !getDailyWord_index by done. by rewrite Heq.
Qed.

Lemma getDailyWord_selection_witness :
  WORDS ≠ [] ∧ (0 <= daysFromEpoch sampleDay)%Z ∧
  (∃ word,
     getDailyWord WORDS sampleDay = Return (Some word) ∧
     WORDS !! Z.to_nat (daysFromEpoch sampleDay mod Z.of_nat (length WORDS))
     = Some word) ∧
  (∀ k', (0 <= daysFromEpoch k')%Z →
     (daysFromEpoch k' mod Z.of_nat (length WORDS)
      = daysFromEpoch sampleDay mod Z.of_nat (length WORDS))%Z →
     getDailyWord WORDS k' = getDailyWord WORDS sampleDay).
Proof.
  assert (WORDS ≠ []) as Hne by (intros H; discriminate H).
  assert (0 <= daysFromEpoch sampleDay)%Z as Hpos by (intros H; discriminate H).
  exact (conj Hne (conj Hpos (getDailyWord_selection WORDS sampleDay Hne Hpos))).
Defined.

(** The hypothesis on the day count is needed: before the epoch the
    remainder is negative and no entry is selected. *)
Remark getDailyWord_before_epoch :
  daysFromEpoch {| year := 1969; month := 12; day := 31 |} = (-1)%Z ∧
  getDailyWord WORDS {| year := 1969; month := 12; day := 31 |} = Return None.
Proof. split; reflexivity. Qed.

(** Every word of the list has [WORD_LENGTH] letters. *)
Lemma WORDS_length : Forall (fun word => length word = WORD_LENGTH) WORDS.
Proof. repeat constructor. Qed.

Lemma js_index_elem_of {A} (arr : list A) (i : jsnum) (x : A) :
  js_index arr i = Some x → x ∈ arr.
Proof.
  destruct i as [z|]; [|done]. cbn. destruct (decide (z < 0)%Z); [done|].
  apply list_elem_of_lookup_2.
Qed.

(** After loading, the secret is a word of the list, whatever was restored. *)
Lemma onLoad_secret (today : DayKey) (slot : option item) (w : World) :
  onLoad WORDS today slot = Return w →
  secretWord (game w) ∈ WORDS ∧
  secretLetters (game w) = splitUrdu (secretWord (game w)) ∧
  length (secretLetters (game w)) = WORD_LENGTH.
Proof.
  unfold onLoad, getDailyWord. cbn.
  destruct (js_index WORDS _) as [word|] eqn:Hword; cbn; [|done].
  apply js_index_elem_of in Hword.
  assert (length word = WORD_LENGTH) as Hlen.
  { pose proof WORDS_length as HW. rewrite Forall_forall in HW. by apply HW. }
  destruct (loadDailyState _ _) as [[s|]|]; cbn; [| |done].
  - destruct (decide _); intros [= <-]; cbn; done.
  - intros [= <-]. cbn. done.
Qed.

(** With an empty list the selection returns [undefined]; it does not
    throw. *)
Lemma empty_catalog_returns :
  getDailyWord [] sampleDay = Return None ∧
  ¬ ∃ e, getDailyWord [] sampleDay = Throw e.
Proof. split; [reflexivity|]. intros [e He]. discriminate He. Qed.

(** C5 (amended). With an empty list [getDailyWord] returns [undefined] on
    every day, without an error; the loading handler then throws a
    [TypeError] when it splits that value into letters. *)
Theorem empty_catalog_undefined (today : DayKey) :
  getDailyWord [] today = Return None ∧
  ∀ slot, onLoad [] today slot = Throw TypeError.
Proof.
  assert (getDailyWord [] today = Return None) as H by reflexivity.
  split; [done|]. intros slot. unfold onLoad. rewrite H. reflexivity.
Qed.

(** ** The hint icon *)

Section Hint.

Variable words : list jsstring.
Variable today : DayKey.
Variable hasKey : jsstring -> bool.

Lemma handleHintClick_below w :
  S (hintClickCount (game w)) < HINT_MAGIC_NUMBER →
  hintClickCount (game (handleHintClick w)) = S (hintClickCount (game w)) ∧
  secretWord (game (handleHintClick w)) = secretWord (game w) ∧
  gameOver (game (handleHintClick w)) = gameOver (game w).
Proof.
  intros H. unfold handleHintClick. cbn.
  rewrite decide_False by lia. rewrite decide_False by lia. done.
Qed.

Lemma handleHintClick_magic w :
  S (hintClickCount (game w)) = HINT_MAGIC_NUMBER →
  hintClickCount (game (handleHintClick w)) = HINT_MAGIC_NUMBER ∧
  secretWord (game (handleHintClick w)) = secretWord (game w) ∧
  gameOver (game (handleHintClick w)) = gameOver (game w).
Proof.
  intros H. unfold handleHintClick. cbn. rewrite decide_True by done. cbn.
  by rewrite H.
Qed.

Lemma handleHintClick_reveal w :
  HINT_MAGIC_NUMBER < S (hintClickCount (game w)) →
  toasts (handleHintClick w)
  = toasts w ++ [MSG_ANSWER_PREFIX ++ secretWord (game w)] ∧
  hintClickCount (game (handleHintClick w)) = 0 ∧
  gameOver (game (handleHintClick w)) = gameOver (game w).
Proof.
  intros H. unfold handleHintClick. cbn.
  rewrite decide_False by lia. rewrite decide_True by lia. done.
Qed.

Lemma run_app w es1 es2 :
  run words today hasKey w (es1 ++ es2)
  = run words today hasKey (run words today hasKey w es1) es2.
Proof. unfold run. apply fold_left_app. Qed.

Lemma hint_clicks_below n : ∀ w,
  hintClickCount (game w) + n < HINT_MAGIC_NUMBER →
  hintClickCount (game (run words today hasKey w (replicate n HintClick)))
  = hintClickCount (game w) + n ∧
  secretWord (game (run words today hasKey w (replicate n HintClick)))
  = secretWord (game w) ∧
  gameOver (game (run words today hasKey w (replicate n HintClick)))
  = gameOver (game w).
Proof.
  induction n as [|n IH]; intros w Hn.
  - cbn. split; [lia | done].
  - cbn [replicate run fold_left step].
    destruct (handleHintClick_below w) as (Hc & Hs & Hg); [lia|].
    destruct (IH (handleHintClick w)) as (IHc & IHs & IHg); [lia|].
    unfold run in *. rewrite IHc, IHs, IHg, Hc, Hs, Hg. split; [lia | done].
Qed.

(** C10. A click on the hint icon that brings the counter above
    [HINT_MAGIC_NUMBER] shows the message ['jawab is ' + secretWord], which
    ends with the secret, and resets the counter; whether the game is over
    plays no part.  From a counter of zero the nineteenth click is such a
    click, so a game that is still running discloses its secret. *)
Theorem hint_reveals_secret (w : World) :
  (HINT_MAGIC_NUMBER < S (hintClickCount (game w)) →
     toasts (handleHintClick w)
     = toasts w ++ [MSG_ANSWER_PREFIX ++ secretWord (game w)] ∧
     secretWord (game w) `suffix_of` MSG_ANSWER_PREFIX ++ secretWord (game w) ∧
     hintClickCount (game (handleHintClick w)) = 0 ∧
     gameOver (game (handleHintClick w)) = gameOver (game w)) ∧
  (hintClickCount (game w) = 0 → gameOver (game w) = false →
     let w' := run words today hasKey w (replicate 19 HintClick) in
     last (toasts w') = Some (MSG_ANSWER_PREFIX ++ secretWord (game w)) ∧
     gameOver (game w') = false ∧
     hintClickCount (game w') = 0).
Proof.
  split.
  - intros H. destruct (handleHintClick_reveal w H) as (Ht & Hc & Hg).
    split; [done|]. split; [|done]. by apply suffix_app_r.
  - intros H0 Hrun w'. subst w'.
    replace (replicate 19 HintClick)
      with (replicate 17 HintClick ++ [HintClick; HintClick]) by reflexivity.
    rewrite (run_app w (replicate 17 HintClick) [HintClick; HintClick]).
    destruct (hint_clicks_below 17 w) as (Hc & Hs & Hg);
      [rewrite H0; unfold HINT_MAGIC_NUMBER; lia|].
    set (w17 := run words today hasKey w (replicate 17 HintClick)) in *.
    rewrite H0 in Hc. unfold run at 1 2 3. cbn [fold_left step].
    destruct (handleHintClick_magic w17) as (Hc' & Hs' & Hg'); [by rewrite Hc|].
    destruct (handleHintClick_reveal (handleHintClick w17)) as (Ht & Hc'' & Hg'');
      [rewrite Hc'; lia|].
    rewrite Ht, last_snoc, Hc'', Hg'', Hg', Hg, Hs', Hs. done.
Qed.

End Hint.

Lemma hint_reveals_secret_witness :
  let w := updGame (setHintClickCount 18) sampleWorld in
  HINT_MAGIC_NUMBER < S (hintClickCount (game w)) ∧
  hintClickCount (game sampleWorld) = 0 ∧
  gameOver (game sampleWorld) = false ∧
  toasts (handleHintClick w) = [lit "jawab is " ++ [1586; 1575; 1729; 1583]%N] ∧
  last (toasts (run WORDS sampleDay noPhysicalKeys sampleWorld
                  (replicate 19 HintClick)))
  = Some (lit "jawab is " ++ [1586; 1575; 1729; 1583]%N).
Proof.
  assert (HINT_MAGIC_NUMBER
          < S (hintClickCount (game (updGame (setHintClickCount 18) sampleWorld))))
    as Hgt by (unfold HINT_MAGIC_NUMBER; cbn; lia).
  pose proof (hint_reveals_secret WORDS sampleDay noPhysicalKeys
                (updGame (setHintClickCount 18) sampleWorld)) as (H1 & _).
  pose proof (hint_reveals_secret WORDS sampleDay noPhysicalKeys sampleWorld)
    as (_ & H2).
  exact (conj Hgt (conj eq_refl (conj eq_refl
           (conj (proj1 (H1 Hgt)) (proj1 (H2 eq_refl eq_refl)))))).
Defined.

(** * Further properties *)

(** ** Evaluation: how many tiles a letter gets *)

Lemma countBelow_sum P Q R n :
  (∀ j, j < n → R j = P j || Q j) →
  (∀ j, j < n → P j = true → Q j = false) →
  countBelow R n = countBelow P n + countBelow Q n.
Proof.
  induction n as [|n IH]; intros HR Hdis; [done|].
  cbn [countBelow].
  rewrite IH;
    [| intros j Hj; apply HR; lia | intros j Hj Hp; apply Hdis; [lia | done]].
  rewrite (HR n) by lia. specialize (Hdis n ltac:(lia)).
  destruct (P n), (Q n); cbn; first [lia | discriminate (Hdis eq_refl)].
Qed.

Lemma countBelow_le P Q n :
  (∀ j, j < n → P j = true → Q j = true) →
  countBelow P n <= countBelow Q n.
Proof.
  induction n as [|n IH]; intros H; [done|].
  cbn [countBelow]. specialize (IH ltac:(intros; apply H; (lia || done))).
  specialize (H n ltac:(lia)).
  destruct (P n); [rewrite H by done|destruct (Q n)]; lia.
Qed.

Lemma countBelow_past_length l c n :
  length l <= n → countBelow (letterAt l c) n = occurrences l c.
Proof.
  revert n. induction l as [|x l IH] using rev_ind; intros n Hn.
  - clear Hn. induction n as [|n IHn]; [done|]. cbn [countBelow]. rewrite IHn. done.
  - rewrite length_app in Hn. cbn in Hn.
    induction n as [|n IHn]; [lia|].
    destruct (decide (n = length l)) as [->|Hne].
    + cbn [countBelow]. rewrite occurrences_snoc.
      rewrite (countBelow_ext _ (letterAt l c)).
      * rewrite IH by lia. f_equal. unfold letterAt.
        rewrite lookup_app_r by lia. rewrite Nat.sub_diag. cbn.
        destruct (decide (x = c)) as [->|Hxc].
        -- by rewrite bool_decide_eq_true_2.
        -- rewrite bool_decide_eq_false_2; [done|]. congruence.
      * intros j Hj. unfold letterAt. by rewrite lookup_app_l.
    + cbn [countBelow]. rewrite IHn by lia.
      unfold letterAt. rewrite lookup_ge_None_2; [|rewrite length_app; cbn; lia].
      rewrite bool_decide_eq_false_2 by done. lia.
Qed.

Lemma countBelow_take guess c :
  countBelow (letterAt guess c) WORD_LENGTH
  = occurrences (take WORD_LENGTH guess) c.
Proof.
  rewrite <- (countBelow_past_length (take WORD_LENGTH guess) c WORD_LENGTH)
    by (rewrite length_take; lia).
  apply countBelow_ext. intros j Hj. unfold letterAt. by rewrite lookup_take_lt.
Qed.

Lemma exact_le_occurrences guess secret c :
  length secret = WORD_LENGTH →
  countBelow (exactAt guess secret c) WORD_LENGTH <= occurrences secret c.
Proof.
  intros Hlen. rewrite <- (countBelow_past_length secret c WORD_LENGTH) by lia.
  apply countBelow_le. intros j _. unfold exactAt, letterAt.
  intros H. apply bool_decide_eq_true_1 in H as [_ H].
  by apply bool_decide_eq_true_2.
Qed.

(** In the final state the present marks given to a letter below [k] are
    the smaller of what the exact matches left over and the displaced
    occurrences below [k]. *)
Lemma present_count guess secret st c k :
  length secret = WORD_LENGTH →
  afterSecond guess secret WORD_LENGTH st → k <= WORD_LENGTH →
  Z.of_nat (countBelow (presentAt st.1 guess c) k)
  = Z.min (Z.of_nat (occurrences secret c)
           - Z.of_nat (countBelow (exactAt guess secret c) WORD_LENGTH))
          (Z.of_nat (countBelow (displacedAt guess secret c) k)).
Proof.
  intros Hlen (Hl & Hcor & _ & Hdone & _).
  pose proof (exact_le_occurrences guess secret c Hlen) as Hle.
  induction k as [|k IH]; intros Hk; [cbn [countBelow]; lia|].
  specialize (IH ltac:(lia)). cbn [countBelow].
  unfold presentAt at 2, displacedAt at 2.
  destruct (decide (guess !! k = Some c)) as [Hg|Hg].
  - destruct (decide (secret !! k = Some c)) as [Hs|Hs].
    + assert (st.1 !! k = Some Correct) as Hr
        by (apply Hcor; [lia | congruence]).
      rewrite !bool_decide_eq_false_2; [lia | naive_solver | ].
      intros [? _]. congruence.
    + assert (guess !! k ≠ secret !! k) as Hne by congruence.
      specialize (Hdone k ltac:(lia) Hne). rewrite Hg in Hdone.
      rewrite (bool_decide_eq_true_2 (_ ∧ secret !! k ≠ _)) by done.
      unfold remaining in Hdone.
      destruct (decide (0 < _)%Z) as [Hp|Hp].
      * rewrite bool_decide_eq_true_2 by done. lia.
      * rewrite bool_decide_eq_false_2; [lia|]. intros [? _]. congruence.
  - rewrite !bool_decide_eq_false_2; [lia | naive_solver | naive_solver].
Qed.

Lemma marked_count (secret guess : list letter) (c : letter) :
  length secret = WORD_LENGTH →
  countBelow (markedAt (evaluateGuess secret guess) guess c) WORD_LENGTH
  = occurrences secret c `min` occurrences (take WORD_LENGTH guess) c.
Proof.
  intros Hlen.
  destruct (evaluateGuess_final secret guess Hlen) as (st & -> & Hst).
  pose proof (present_count guess secret st c WORD_LENGTH Hlen Hst (le_n _)) as Hp.
  pose proof (exact_le_occurrences guess secret c Hlen) as Hle.
  destruct Hst as (Hl & Hcor & _ & _ & _).
  assert (countBelow (markedAt st.1 guess c) WORD_LENGTH
          = countBelow (exactAt guess secret c) WORD_LENGTH
            + countBelow (presentAt st.1 guess c) WORD_LENGTH) as Hm.
  { apply countBelow_sum.
    - intros j Hj. unfold markedAt, exactAt, presentAt.
      specialize (Hcor j Hj).
      destruct (decide (guess !! j = Some c)) as [Hg|Hg].
      + destruct (decide (secret !! j = Some c)) as [Hs|Hs].
        * rewrite (bool_decide_eq_true_2 (_ ∧ secret !! j = _)) by done.
          apply bool_decide_eq_true_2. split; [done|]. left. apply Hcor. congruence.
        * rewrite (bool_decide_eq_false_2 (_ ∧ secret !! j = _)) by naive_solver.
          cbn. apply bool_decide_ext. split.
          -- intros [_ [Hc|Hpr]]; [|done]. apply Hcor in Hc. congruence.
          -- intros [? ?]. auto.
      + rewrite !bool_decide_eq_false_2 by naive_solver. done.
    - intros j Hj. unfold exactAt, presentAt. intros H.
      apply bool_decide_eq_true_1 in H as [Hg Hs].
      apply bool_decide_eq_false_2. intros [Hr _].
      assert (st.1 !! j = Some Correct) by (apply Hcor; [done | congruence]).
      congruence. }
  assert (countBelow (letterAt guess c) WORD_LENGTH
          = countBelow (exactAt guess secret c) WORD_LENGTH
            + countBelow (displacedAt guess secret c) WORD_LENGTH) as Hg.
  { apply countBelow_sum.
    - intros j Hj. unfold letterAt, exactAt, displacedAt.
      destruct (decide (guess !! j = Some c)) as [Hg|Hg];
        [|rewrite !bool_decide_eq_false_2 by naive_solver; done].
      rewrite (bool_decide_eq_true_2 (guess !! j = _)) by done.
      destruct (decide (secret !! j = Some c)).
      + by rewrite (bool_decide_eq_true_2 (_ ∧ secret !! j = _)).
      + rewrite (bool_decide_eq_false_2 (_ ∧ secret !! j = _)) by naive_solver.
        by rewrite bool_decide_eq_true_2.
    - intros j Hj. unfold exactAt, displacedAt. intros H.
      apply bool_decide_eq_true_1 in H as [_ Hs].
      apply bool_decide_eq_false_2. naive_solver. }
  rewrite countBelow_take in Hg. lia.
Qed.

(** X1. Against a secret of [WORD_LENGTH] letters, the number of tiles of a
    letter that come out correct or present is the smaller of the letter's
    multiplicity in the secret and its multiplicity among the first
    [WORD_LENGTH] letters of the guess; in particular it never exceeds the
    multiplicity in the secret. *)
Theorem evaluateGuess_marks (secret guess : list letter) (c : letter) :
  length secret = WORD_LENGTH →
  countBelow (markedAt (evaluateGuess secret guess) guess c) WORD_LENGTH
  = occurrences secret c `min` occurrences (take WORD_LENGTH guess) c ∧
  countBelow (markedAt (evaluateGuess secret guess) guess c) WORD_LENGTH
  <= occurrences secret c.
Proof.
  intros Hlen. rewrite marked_count by done. split; [done | lia].
Qed.

Lemma evaluateGuess_marks_witness :
  length [1; 2; 3; 1]%N = WORD_LENGTH ∧
  countBelow (markedAt (evaluateGuess [1; 2; 3; 1]%N [1; 1; 1; 4]%N)
                [1; 1; 1; 4]%N 1%N) WORD_LENGTH = 2.
Proof.
  split; [reflexivity|].
  exact (proj1 (evaluateGuess_marks [1; 2; 3; 1]%N [1; 1; 1; 4]%N 1%N eq_refl)).
Defined.

Lemma countBelow_filter {A} `{EqDecision A} (l : list A) (x : A) n :
  length l <= n →
  countBelow (fun j => bool_decide (l !! j = Some x)) n
  = length (filter (fun y => y = x) l).
Proof.
  revert n. induction l as [|y l IH] using rev_ind; intros n Hn.
  - clear Hn. induction n as [|n IHn]; [done|]. cbn [countBelow]. rewrite IHn. done.
  - rewrite length_app in Hn. cbn in Hn.
    rewrite filter_app, length_app, filter_cons, filter_nil.
    induction n as [|n IHn]; [lia|].
    destruct (decide (n = length l)) as [->|Hne].
    + cbn [countBelow].
      rewrite (countBelow_ext _ (fun j => bool_decide (l !! j = Some x))).
      * rewrite IH by lia. f_equal.
        rewrite lookup_app_r by lia. rewrite Nat.sub_diag. cbn.
        destruct (decide (y = x)) as [->|Hxc].
        -- by rewrite bool_decide_eq_true_2.
        -- rewrite bool_decide_eq_false_2; [done|]. congruence.
      * intros j Hj. by rewrite lookup_app_l.
    + cbn [countBelow]. rewrite IHn by lia.
      rewrite lookup_ge_None_2; [|rewrite length_app; cbn; lia].
      rewrite bool_decide_eq_false_2 by done. lia.
Qed.

Lemma countBelow_full P n :
  countBelow P n = n ↔ ∀ j, j < n → P j = true.
Proof.
  assert (countBelow P n <= n) as Hle.
  { induction n as [|n IH]; [done|]. cbn [countBelow]. destruct (P n); lia. }
  induction n as [|n IH].
  - split; [intros _ j Hj; lia | done].
  - cbn [countBelow] in *.
    assert (countBelow P n <= n) as Hle'.
    { clear. induction n as [|n IH]; [done|]. cbn [countBelow]. destruct (P n); lia. }
    specialize (IH Hle'). destruct (P n) eqn:Hp.
    + split.
      * intros H j Hj. destruct (decide (j = n)) as [->|]; [done|].
        apply IH; lia.
      * intros H. assert (countBelow P n = n) as ->; [|lia].
        apply IH. intros j Hj. apply H. lia.
    + split; [lia|]. intros H. rewrite H in Hp by lia. done.
Qed.

Lemma allCorrect_lookup (evaluation : list LetterStatus) :
  allCorrect evaluation = true
  ↔ ∀ j, j < length evaluation → evaluation !! j = Some Correct.
Proof.
  induction evaluation as [|s l IH]; cbn.
  - split; [intros _ j Hj; lia | done].
  - rewrite andb_true_iff, bool_decide_eq_true, IH. split.
    + intros [-> H] [|j] Hj; [done|]. cbn. apply H. lia.
    + intros H. split.
      * specialize (H 0 ltac:(lia)). by injection H.
      * intros j Hj. apply (H (S j)). lia.
Qed.

(** X2. Against a secret of [WORD_LENGTH] letters an evaluation is all
    correct exactly when the first [WORD_LENGTH] letters of the guess spell
    the secret; for a guess of [WORD_LENGTH] letters, exactly when it is the
    secret. *)
Theorem evaluateGuess_win (secret guess : list letter) :
  length secret = WORD_LENGTH →
  (allCorrect (evaluateGuess secret guess) = true
   ↔ take WORD_LENGTH guess = secret) ∧
  (length guess = WORD_LENGTH →
   (allCorrect (evaluateGuess secret guess) = true ↔ guess = secret)).
Proof.
  intros Hlen.
  assert (allCorrect (evaluateGuess secret guess) = true
          ↔ take WORD_LENGTH guess = secret) as Hiff.
  { rewrite allCorrect_lookup, evaluateGuess_length.
    destruct (evaluateGuess_final secret guess Hlen) as (st & -> & _ & Hcor & _).
    split.
    - intros H. apply list_eq. intros j.
      destruct (decide (j < WORD_LENGTH)) as [Hj|Hj].
      + rewrite lookup_take_lt by done. apply Hcor; [done|]. by apply H.
      + rewrite lookup_take_ge by lia. symmetry. apply lookup_ge_None_2. lia.
    - intros <- j Hj. apply Hcor; [done|]. by rewrite lookup_take_lt. }
  split; [done|]. intros Hg. rewrite Hiff.
  rewrite firstn_all2 by lia. done.
Qed.

Lemma evaluateGuess_win_witness :
  length [1586; 1575; 1729; 1583]%N = WORD_LENGTH ∧
  (allCorrect (evaluateGuess [1586; 1575; 1729; 1583]%N [1591; 1575; 1729; 1585]%N)
   = true
   ↔ take WORD_LENGTH [1591; 1575; 1729; 1585]%N = [1586; 1575; 1729; 1583]%N).
Proof.
  split; [reflexivity|].
  exact (proj1 (evaluateGuess_win [1586; 1575; 1729; 1583]%N
                  [1591; 1575; 1729; 1585]%N eq_refl)).
Defined.

Lemma status_of_letter (secret guess : list letter) (i : nat) (c : letter) :
  length secret = WORD_LENGTH → i < WORD_LENGTH → guess !! i = Some c →
  (c ∉ secret → evaluateGuess secret guess !! i = Some Absent) ∧
  (evaluateGuess secret guess !! i = Some Present →
   c ∈ secret ∧ secret !! i ≠ Some c).
Proof.
  intros Hlen Hi Hg.
  destruct (evaluateGuess_final secret guess Hlen)
    as (st & -> & _ & Hcor & _ & Hdone & _).
  specialize (Hcor i Hi). specialize (Hdone i Hi). rewrite Hg in Hcor, Hdone.
  split.
  - intros Hout.
    assert (Some c ≠ secret !! i) as Hne.
    { intros Heq. apply Hout. eapply list_elem_of_lookup_2. by symmetry. }
    rewrite (Hdone Hne). rewrite decide_False; [done|].
    pose proof (remaining_absent_letter secret guess st.1 c i Hout). lia.
  - intros Hp.
    assert (Some c ≠ secret !! i) as Hne.
    { intros Heq. apply Hcor in Heq. congruence. }
    split; [|congruence]. specialize (Hdone Hne). rewrite Hp in Hdone.
    destruct (decide (c ∈ secret)) as [|Hout]; [done|].
    pose proof (remaining_absent_letter secret guess st.1 c i Hout).
    destruct (decide (0 < remaining secret guess st.1 c i)%Z); [lia | done].
Qed.

(** X3. Against a secret of [WORD_LENGTH] letters, a letter that does not
    occur in the secret is always marked absent, and a present mark is only
    given to a letter that occurs in the secret and stands at a position
    where the secret has another letter. *)
Theorem evaluateGuess_letters (secret guess : list letter) (i : nat) (c : letter) :
  length secret = WORD_LENGTH → i < WORD_LENGTH → guess !! i = Some c →
  (c ∉ secret → evaluateGuess secret guess !! i = Some Absent) ∧
  (evaluateGuess secret guess !! i = Some Present →
   c ∈ secret ∧ secret !! i ≠ Some c).
Proof. apply status_of_letter. Qed.

Lemma evaluateGuess_letters_witness :
  length [1; 2; 3; 1]%N = WORD_LENGTH ∧ 3 < WORD_LENGTH ∧
  [1; 1; 1; 4]%N !! 3 = Some 4%N ∧
  (4%N ∉ [1; 2; 3; 1]%N →
   evaluateGuess [1; 2; 3; 1]%N [1; 1; 1; 4]%N !! 3 = Some Absent).
Proof.
  split; [reflexivity|]. split; [unfold WORD_LENGTH; lia|]. split; [reflexivity|].
  exact (proj1 (evaluateGuess_letters [1; 2; 3; 1]%N [1; 1; 1; 4]%N 3 4%N
                  eq_refl ltac:(unfold WORD_LENGTH; lia) eq_refl)).
Defined.

Lemma fold_left_ext_in {A B} (f g : A -> B -> A) (l : list B) (a : A) :
  (∀ a x, x ∈ l → f a x = g a x) → fold_left f l a = fold_left g l a.
Proof.
  revert a. induction l as [|x l IH]; intros a H; [done|]. cbn.
  rewrite (H a x) by apply list_elem_of_here. apply IH.
  intros a' y Hy. apply H. by apply list_elem_of_further.
Qed.

(** X4. Only the first [WORD_LENGTH] letters of a guess are looked at: a
    longer string evaluates like its prefix, whatever the secret. *)
Theorem evaluateGuess_prefix (secret guess : list letter) :
  evaluateGuess secret guess = evaluateGuess secret (take WORD_LENGTH guess).
Proof.
  unfold evaluateGuess, secondPass, firstPass, splitUrdu. f_equal.
  rewrite (fold_left_ext_in (firstPassStep guess secret)
             (firstPassStep (take WORD_LENGTH guess) secret)).
  - apply fold_left_ext_in. intros st i Hi. apply elem_of_seq in Hi.
    unfold secondPassStep. by rewrite lookup_take_lt by lia.
  - intros st i Hi. apply elem_of_seq in Hi.
    unfold firstPassStep. by rewrite lookup_take_lt by lia.
Qed.

(** X5. The badge of a history row counts the positions at which the guess
    and the secret agree, and the row is a success exactly when the badge
    shows [WORD_LENGTH]. *)
Theorem badge_counts_matches (secret guess : list letter) :
  length secret = WORD_LENGTH →
  matchCount (evaluateGuess secret guess)
  = countBelow (matchAt guess secret) WORD_LENGTH ∧
  (allCorrect (evaluateGuess secret guess) = true
   ↔ matchCount (evaluateGuess secret guess) = WORD_LENGTH).
Proof.
  intros Hlen. unfold matchCount.
  rewrite <- (countBelow_filter _ Correct WORD_LENGTH)
    by (by rewrite evaluateGuess_length).
  rewrite allCorrect_lookup, evaluateGuess_length, countBelow_full.
  destruct (evaluateGuess_final secret guess Hlen) as (st & -> & _ & Hcor & _).
  split.
  - apply countBelow_ext. intros j Hj. unfold matchAt.
    apply bool_decide_ext. by apply Hcor.
  - split; intros H j Hj.
    + apply bool_decide_eq_true_2. by apply H.
    + specialize (H j Hj). by apply bool_decide_eq_true_1 in H.
Qed.

Lemma badge_counts_matches_witness :
  length [1; 2; 3; 1]%N = WORD_LENGTH ∧
  matchCount (evaluateGuess [1; 2; 3; 1]%N [1; 1; 1; 4]%N)
  = countBelow (matchAt [1; 1; 1; 4]%N [1; 2; 3; 1]%N) WORD_LENGTH.
Proof.
  split; [reflexivity|].
  exact (proj1 (badge_counts_matches [1; 2; 3; 1]%N [1; 1; 1; 4]%N eq_refl)).
Defined.

(** ** Keyboard colours *)

Lemma updateKeyStep_priority letters evaluation ks i c :
  currentPriority (updateKeyStep letters evaluation ks i !! c)
  = currentPriority (ks !! c)
    `max` (if decide (letters !! i = Some c)
           then currentPriority (evaluation !! i) else 0).
Proof.
  unfold updateKeyStep.
  destruct (letters !! i) as [c'|] eqn:Hl; [|rewrite decide_False by done; lia].
  destruct (evaluation !! i) as [status|] eqn:He;
    [|destruct (decide _); cbn; lia].
  destruct (decide (Some c' = Some c)) as [[= ->]|Hne].
  - destruct (decide (currentPriority (ks !! c) < priority status)).
    + rewrite lookup_insert_eq. cbn. lia.
    + cbn. lia.
  - destruct (decide _); [|lia].
    rewrite lookup_insert_ne by congruence. lia.
Qed.

Lemma updateKeyboard_priority ks guess evaluation c :
  currentPriority (updateKeyboard ks guess evaluation !! c)
  = currentPriority (ks !! c)
    `max` bestBelow guess evaluation c (length guess).
Proof.
  unfold updateKeyboard, splitUrdu.
  induction (length guess) as [|n IH]; [cbn; lia|].
  rewrite fold_left_seq_S, updateKeyStep_priority, IH. cbn [bestBelow]. lia.
Qed.

Lemma currentPriority_inj a b : currentPriority a = currentPriority b → a = b.
Proof. destruct a as [[]|], b as [[]|]; cbn; congruence. Qed.

(** X6. [updateKeyboard] gives every letter the better of the colour it had
    and the best status the evaluation gives it in this guess, under
    correct > present > absent; so a key never loses priority, and a letter
    without a status in this guess keeps its colour. *)
Theorem updateKeyboard_best (ks : gmap letter LetterStatus) (guess : jsstring)
    (evaluation : list LetterStatus) (c : letter) :
  currentPriority (updateKeyboard ks guess evaluation !! c)
  = currentPriority (ks !! c) `max` bestBelow guess evaluation c (length guess) ∧
  currentPriority (ks !! c)
  <= currentPriority (updateKeyboard ks guess evaluation !! c) ∧
  (bestBelow guess evaluation c (length guess) = 0 →
   updateKeyboard ks guess evaluation !! c = ks !! c).
Proof.
  pose proof (updateKeyboard_priority ks guess evaluation c) as H.
  split; [done|]. split; [lia|]. intros H0. apply currentPriority_inj. lia.
Qed.

Lemma updateKeyboard_best_witness :
  bestBelow [1; 1; 1; 4]%N [Correct; Present; Absent; Absent] 7%N 4 = 0 ∧
  updateKeyboard {[ 7%N := Present ]} [1; 1; 1; 4]%N
    [Correct; Present; Absent; Absent] !! 7%N
  = ({[ 7%N := Present ]} : gmap letter LetterStatus) !! 7%N.
Proof.
  split; [reflexivity|].
  exact (proj2 (proj2 (updateKeyboard_best {[ 7%N := Present ]} [1; 1; 1; 4]%N
                         [Correct; Present; Absent; Absent] 7%N)) eq_refl).
Defined.

(** X7. The colours of the keyboard do not depend on the order in which two
    guesses are shown. *)
Theorem updateKeyboard_comm (ks : gmap letter LetterStatus)
    (guess1 guess2 : jsstring) (evaluation1 evaluation2 : list LetterStatus) :
  updateKeyboard (updateKeyboard ks guess1 evaluation1) guess2 evaluation2
  = updateKeyboard (updateKeyboard ks guess2 evaluation2) guess1 evaluation1.
Proof.
  apply map_eq. intros c. apply currentPriority_inj.
  rewrite !updateKeyboard_priority. lia.
Qed.

Lemma bestBelow_ge letters evaluation c n p :
  1 <= p →
  p <= bestBelow letters evaluation c n
  ↔ ∃ i, i < n ∧ letters !! i = Some c ∧ p <= currentPriority (evaluation !! i).
Proof.
  intros Hp. induction n as [|n IH]; cbn [bestBelow].
  - split; [lia | intros (i & Hi & _); lia].
  - rewrite Nat.max_le_iff, IH. split.
    + intros [(i & Hi & H)|H].
      * exists i. split; [lia | done].
      * destruct (decide (letters !! n = Some c)); [|lia].
        exists n. split; [lia | done].
    + intros (i & Hi & Hl & Hc). destruct (decide (i = n)) as [->|Hne].
      * right. by rewrite decide_True.
      * left. exists i. split; [lia | done].
Qed.

Lemma countBelow_pos P n :
  0 < countBelow P n → ∃ j, j < n ∧ P j = true.
Proof.
  induction n as [|n IH]; cbn [countBelow]; [lia|].
  destruct (P n) eqn:Hp; intros H.
  - exists n. split; [lia | done].
  - destruct IH as (j & Hj & HP); [lia|]. exists j. split; [lia | done].
Qed.

Lemma occurrences_pos (l : list letter) c : c ∈ l → 0 < occurrences l c.
Proof.
  intros Hc. unfold occurrences.
  assert (c ∈ filter (fun x => x = c) l) as Hf by (by apply list_elem_of_filter).
  destruct (filter _ l); [by apply not_elem_of_nil in Hf | cbn; lia].
Qed.

Lemma priority_pos status : 1 <= priority status.
Proof. destruct status; cbn; lia. Qed.

(** What one evaluated guess contributes to the key of a letter. *)
Lemma bestBelow_evaluateGuess secret (guess : jsstring) c :
  length secret = WORD_LENGTH →
  let best := bestBelow guess (evaluateGuess secret guess) c (length guess) in
  (1 <= best ↔ c ∈ take WORD_LENGTH guess) ∧
  (2 <= best → c ∈ secret) ∧
  (c ∈ secret → 1 <= best → 2 <= best) ∧
  (3 <= best ↔ ∃ i, guess !! i = Some c ∧ secret !! i = Some c).
Proof.
  intros Hlen best. subst best.
  pose proof (evaluateGuess_length secret guess) as Hel.
  assert (1 <= bestBelow guess (evaluateGuess secret guess) c (length guess)
          ↔ c ∈ take WORD_LENGTH guess) as H1.
  { rewrite bestBelow_ge by lia. split.
    - intros (i & Hi & Hg & Hc).
      destruct (evaluateGuess secret guess !! i) as [s|] eqn:Hs; [|cbn in Hc; lia].
      apply lookup_lt_Some in Hs. rewrite Hel in Hs.
      apply (list_elem_of_lookup_2 _ i). by rewrite lookup_take_lt.
    - intros Hin. apply list_elem_of_lookup_1 in Hin as (i & Hi).
      rewrite lookup_take_Some in Hi. destruct Hi as [Hg Hi].
      exists i. split; [by eapply lookup_lt_Some|]. split; [done|].
      destruct (lookup_lt_is_Some_2 (evaluateGuess secret guess) i) as [s Hs];
        [lia|].
      rewrite Hs. apply priority_pos. }
  split; [done|]. split; [|split].
  - rewrite bestBelow_ge by lia. intros (i & Hi & Hg & Hc).
    destruct (evaluateGuess secret guess !! i) as [s|] eqn:Hs; [|cbn in Hc; lia].
    pose proof (lookup_lt_Some _ _ _ Hs) as Hiw. rewrite Hel in Hiw.
    destruct s; cbn in Hc; [| |lia].
    + destruct (evaluateGuess_final secret guess Hlen) as (st & Heq & _ & Hcor & _).
      rewrite Heq in Hs. apply Hcor in Hs; [|done]. rewrite Hg in Hs.
      by eapply list_elem_of_lookup_2.
    + by apply (status_of_letter secret guess i c).
  - intros Hin Hb. apply H1 in Hb.
    pose proof (marked_count secret guess c Hlen) as Hm.
    pose proof (occurrences_pos _ _ Hin). pose proof (occurrences_pos _ _ Hb).
    destruct (countBelow_pos (markedAt (evaluateGuess secret guess) guess c)
                WORD_LENGTH) as (j & Hj & Hmark); [lia|].
    unfold markedAt in Hmark. apply bool_decide_eq_true_1 in Hmark as [Hg Hr].
    apply bestBelow_ge; [lia|]. exists j.
    split; [by eapply lookup_lt_Some|]. split; [done|].
    destruct Hr as [-> | ->]; cbn; lia.
  - rewrite bestBelow_ge by lia. split.
    + intros (i & Hi & Hg & Hc).
      destruct (evaluateGuess secret guess !! i) as [s|] eqn:Hs; [|cbn in Hc; lia].
      pose proof (lookup_lt_Some _ _ _ Hs) as Hiw. rewrite Hel in Hiw.
      destruct s; cbn in Hc; [|lia|lia].
      destruct (evaluateGuess_final secret guess Hlen) as (st & Heq & _ & Hcor & _).
      rewrite Heq in Hs. apply Hcor in Hs; [|done]. exists i. split; congruence.
    + intros (i & Hg & Hs). exists i.
      pose proof (lookup_lt_Some _ _ _ Hs) as Hiw. rewrite Hlen in Hiw.
      split; [by eapply lookup_lt_Some|]. split; [done|].
      destruct (evaluateGuess_final secret guess Hlen) as (st & -> & _ & Hcor & _).
      rewrite (proj2 (Hcor i Hiw)) by congruence. cbn. lia.
Qed.

Lemma keyStatesAfter_snoc secret attempts guess :
  keyStatesAfter secret (attempts ++ [guess])
  = updateKeyboard (keyStatesAfter secret attempts) guess
      (evaluateGuess secret guess).
Proof. unfold keyStatesAfter. by rewrite fold_left_app. Qed.

Lemma keyStatesAfter_priority secret (attempts : list jsstring) c :
  length secret = WORD_LENGTH →
  let p := currentPriority (keyStatesAfter secret attempts !! c) in
  (1 <= p ↔ ∃ guess, guess ∈ attempts ∧ c ∈ take WORD_LENGTH guess) ∧
  (2 <= p → c ∈ secret) ∧
  (c ∈ secret → 1 <= p → 2 <= p) ∧
  (3 <= p ↔ ∃ guess i, guess ∈ attempts ∧ guess !! i = Some c
                        ∧ secret !! i = Some c).
Proof.
  intros Hlen. induction attempts as [|guess attempts IH] using rev_ind.
  - unfold keyStatesAfter. cbn [fold_left]. rewrite lookup_empty.
    cbn [currentPriority]. split; [|split; [|split]]; try lia.
    + split; [lia|]. intros (g & Hg & _). by apply not_elem_of_nil in Hg.
    + split; [lia|]. intros (g & i & Hg & _). by apply not_elem_of_nil in Hg.
  - cbn zeta in *. rewrite keyStatesAfter_snoc, updateKeyboard_priority.
    destruct IH as (I1 & I2 & I4 & I3).
    destruct (bestBelow_evaluateGuess secret guess c Hlen) as (B1 & B2 & B4 & B3).
    cbn zeta in *. rewrite !Nat.max_le_iff. split; [|split; [|split]].
    + rewrite I1, B1. split.
      * intros [(g & Hg & Hc)|Hc]; [exists g | exists guess];
          (split; [set_solver | done]).
      * intros (g & Hg & Hc). apply elem_of_app in Hg as [Hg|Hg].
        -- left. by exists g.
        -- apply list_elem_of_singleton in Hg as ->. by right.
    + intros [H|H]; auto.
    + intros Hin [H|H]; auto.
    + rewrite I3, B3. split.
      * intros [(g & i & Hg & Hc)|(i & Hc)]; [exists g, i | exists guess, i];
          (split; [set_solver | done]).
      * intros (g & i & Hg & Hc). apply elem_of_app in Hg as [Hg|Hg].
        -- left. by exists g, i.
        -- apply list_elem_of_singleton in Hg as ->. right. by exists i.
Qed.

(** X8. The keyboard is sound for a secret of [WORD_LENGTH] letters: after
    any attempts, a key has no colour exactly when its letter is not among
    the first [WORD_LENGTH] letters of any attempt; a key coloured absent
    is not a letter of the secret; a key coloured present is a letter of the
    secret; and a key is coloured correct exactly when some attempt has its
    letter where the secret has it. *)
Theorem keyboard_sound (secret : list letter) (attempts : list jsstring)
    (c : letter) :
  length secret = WORD_LENGTH →
  let key := keyStatesAfter secret attempts !! c in
  (key = None ↔ ∀ guess, guess ∈ attempts → c ∉ take WORD_LENGTH guess) ∧
  (key = Some Absent → c ∉ secret) ∧
  (key = Some Present → c ∈ secret) ∧
  (key = Some Correct
   ↔ ∃ guess i, guess ∈ attempts ∧ guess !! i = Some c ∧ secret !! i = Some c).
Proof.
  intros Hlen key.
  destruct (keyStatesAfter_priority secret attempts c Hlen) as (I1 & I2 & I4 & I3).
  cbn zeta in *. fold key in I1, I2, I3, I4. split; [|split; [|split]].
  - split.
    + intros Hk guess Hg Hc. rewrite Hk in I1. cbn in I1.
      assert (1 <= 0) by (apply I1; eauto). lia.
    + intros H. destruct key as [s|] eqn:Hk; [|done].
      pose proof (priority_pos s) as Hs.
      apply I1 in Hs as (g & Hg & Hc). by destruct (H g Hg).
  - intros Hk Hin. rewrite Hk in I4. cbn in I4. specialize (I4 Hin). lia.
  - intros Hk. rewrite Hk in I2. cbn in I2. apply I2. lia.
  - rewrite <- I3. split.
    + intros ->. cbn. lia.
    + destruct key as [[]|]; cbn; intros; (done || lia).
Qed.

Lemma keyboard_sound_witness :
  length [1; 2; 3; 1]%N = WORD_LENGTH ∧
  (keyStatesAfter [1; 2; 3; 1]%N [[1; 1; 1; 4]%N] !! 4%N = Some Absent) ∧
  4%N ∉ [1; 2; 3; 1]%N.
Proof.
  split; [reflexivity|].
  assert (keyStatesAfter [1; 2; 3; 1]%N [[1; 1; 1; 4]%N] !! 4%N = Some Absent)
    as Hk by (vm_compute; reflexivity).
  split; [exact Hk|].
  exact (proj1 (proj2 (keyboard_sound [1; 2; 3; 1]%N [[1; 1; 1; 4]%N] 4%N
                         eq_refl)) Hk).
Defined.

(** ** Invariants of a running game *)

Section Running.

Variable words : list jsstring.
Variable today : DayKey.
Variable hasKey : jsstring -> bool.

Ltac handlers :=
  unfold step, handlePhysicalKey, handleKey, submitGuess, handleHintClick,
    submitCallback, updGame, setGame, setItem, showToast, setTimeout,
    setCurrentGuess, setHintClickCount in *.

Ltac branches :=
  repeat first
    [ progress cbn [game storage timers toasts secretWord secretLetters
                    currentGuess attempts evaluations currentRow gameOver won
                    hintClickCount] in *
    | match goal with
      | |- context [if ?b then _ else _] => destruct b eqn:?
      | |- context [match ?l with [] => _ | _ :: _ => _ end] => destruct l eqn:?
      | |- context [let (_, _) := ?p in _] => destruct p eqn:?
      end ].

(** What a single event can do to the secret, the history and the flag. *)
Lemma step_history w e :
  secretWord (game (step words today hasKey w e)) = secretWord (game w) ∧
  secretLetters (game (step words today hasKey w e)) = secretLetters (game w) ∧
  attempts (game w) `prefix_of` attempts (game (step words today hasKey w e)) ∧
  evaluations (game w) `prefix_of` evaluations (game (step words today hasKey w e)) ∧
  (gameOver (game w) = true →
   gameOver (game (step words today hasKey w e)) = true).
Proof.
  destruct e; handlers; branches;
    repeat split; try done; try apply prefix_app_r; done.
Qed.

Lemma run_history_aux (w : World) (es : list event) :
  secretWord (game (run words today hasKey w es)) = secretWord (game w) ∧
  secretLetters (game (run words today hasKey w es)) = secretLetters (game w) ∧
  attempts (game w) `prefix_of` attempts (game (run words today hasKey w es)) ∧
  evaluations (game w)
    `prefix_of` evaluations (game (run words today hasKey w es)) ∧
  (gameOver (game w) = true →
   gameOver (game (run words today hasKey w es)) = true).
Proof.
  revert w. induction es as [|e es IH]; intros w; [done|].
  unfold run in *. cbn [fold_left].
  destruct (step_history w e) as (H1 & H2 & H3 & H4 & H5).
  destruct (IH (step words today hasKey w e)) as (I1 & I2 & I3 & I4 & I5).
  split; [congruence|]. split; [congruence|].
  split; [by etrans|]. split; [by etrans|]. auto.
Qed.

(** X9. Whatever events follow, and whatever was in flight, the secret does
    not change, attempts and evaluations are only ever appended to, and a
    game that is over stays over. *)
Theorem run_history (w : World) (es : list event) :
  secretWord (game (run words today hasKey w es)) = secretWord (game w) ∧
  secretLetters (game (run words today hasKey w es)) = secretLetters (game w) ∧
  attempts (game w) `prefix_of` attempts (game (run words today hasKey w es)) ∧
  evaluations (game w)
    `prefix_of` evaluations (game (run words today hasKey w es)) ∧
  (gameOver (game w) = true →
   gameOver (game (run words today hasKey w es)) = true).
Proof. apply run_history_aux. Qed.

(** A click, a key press or a hint click leaves the history alone, keeps the
    typed letters within [WORD_LENGTH], does not write to storage, and at
    most schedules the callback of a listed word with its evaluation. *)
Lemma input_event w e :
  e ≠ TimerFires →
  let w' := step words today hasKey w e in
  sameHistory (game w) (game w') ∧
  storage w' = storage w ∧
  (length (currentGuess (game w)) <= WORD_LENGTH →
   length (currentGuess (game w')) <= WORD_LENGTH) ∧
  (timers w' = timers w ∨
   ∃ guess, guess ∈ words ∧
     timers w'
     = timers w ++ [(guess, evaluateGuess (secretLetters (game w)) guess)]).
Proof.
  intros He. unfold sameHistory.
  destruct e; [| | |done]; handlers; branches;
    repeat match goal with
    | H : negb (includes _ _) = false |- _ =>
        apply negb_false_iff, bool_decide_eq_true_1 in H
    end;
    repeat split; try done; try (by left); try (right; eauto; fail);
    intros; rewrite ?length_app; cbn; try lia.
  all: try (destruct (currentGuess (game w)) using rev_ind;
            [cbn; lia | rewrite removelast_last; rewrite length_app in *; cbn in *; lia]).
Qed.

Lemma timer_or_input (e : event) : {e = TimerFires} + {e ≠ TimerFires}.
Proof. destruct e; (by left) || (by right). Qed.

Lemma timer_idle w :
  timers w = [] → step words today hasKey w TimerFires = w.
Proof. intros H. cbn. by rewrite H. Qed.

(** What the oldest scheduled callback does when it comes due. *)
Lemma timer_event w guess evaluation rest :
  timers w = (guess, evaluation) :: rest →
  let w' := step words today hasKey w TimerFires in
  let over := allCorrect evaluation
              || bool_decide (MAX_ATTEMPTS <= S (currentRow (game w))) in
  timers w' = rest ∧
  secretWord (game w') = secretWord (game w) ∧
  secretLetters (game w') = secretLetters (game w) ∧
  attempts (game w') = attempts (game w) ++ [guess] ∧
  evaluations (game w') = evaluations (game w) ++ [evaluation] ∧
  currentRow (game w') = S (currentRow (game w)) ∧
  (currentGuess (game w') = currentGuess (game w) ∨ currentGuess (game w') = []) ∧
  gameOver (game w') = over || gameOver (game w) ∧
  won (game w') = (if over then allCorrect evaluation else won (game w)) ∧
  storage w'
  = saveDailyState (getUSToday today) (attempts (game w) ++ [guess])
      over (allCorrect evaluation).
Proof.
  intros Ht. cbn [step]. rewrite Ht. unfold submitCallback.
  cbn [game storage timers toasts].
  destruct (allCorrect evaluation); [|destruct (decide _) as [Hm|Hm]].
  - cbn. repeat split; auto.
  - rewrite (bool_decide_eq_true_2 _ Hm). cbn. repeat split; auto.
  - rewrite (bool_decide_eq_false_2 _ Hm). cbn. repeat split; auto.
Qed.

Lemma step_replayable w e :
  replayable w → replayable (step words today hasKey w e).
Proof.
  intros [Hev Htim]. unfold replayable.
  destruct (timer_or_input e) as [->|He].
  - destruct (timers w) as [|[guess evaluation] rest] eqn:Ht.
    + rewrite timer_idle by done. by rewrite Ht.
    + destruct (timer_event w guess evaluation rest Ht)
        as (Hr & _ & Hs & Ha & He & _).
      rewrite Hr, Hs, Ha, He, map_app, Hev.
      apply Forall_cons in Htim as [Hp Htim]. cbn in Hp. by rewrite Hp.
  - destruct (input_event w e He) as ((_ & Hs & Ha & Hev' & _) & _ & _ & Ht).
    rewrite Hs, Ha, Hev'. split; [done|].
    destruct Ht as [-> | (guess & _ & ->)]; [done|].
    apply Forall_app. split; [done|]. by apply Forall_singleton.
Qed.

Lemma step_wellPlayed w e :
  wellPlayed words w → wellPlayed words (step words today hasKey w e).
Proof.
  intros (Hrow & Hcg & Hatt & Htim & Hopen & Hwon). unfold wellPlayed.
  destruct (timer_or_input e) as [->|He].
  - destruct (timers w) as [|[guess evaluation] rest] eqn:Ht.
    + rewrite timer_idle by done. by rewrite Ht.
    + destruct (timer_event w guess evaluation rest Ht)
        as (Hr & _ & _ & Ha & He & Hrw & Hc & Hgo & Hw & _).
      apply Forall_cons in Htim as [Hp Htim]. cbn in Hp.
      rewrite Hr, Ha, He, Hrw, Hgo, Hw, length_app, Hrow. cbn [length].
      split; [lia|]. split; [destruct Hc as [-> | ->]; [done | cbn; lia]|].
      split; [apply Forall_app; split; [done | by apply Forall_singleton]|].
      split; [done|].
      destruct (allCorrect evaluation) eqn:Hall; cbn [orb].
      * split; [done|]. intros _. split; [done|].
        apply Exists_app. right. by apply Exists_cons_hd.
      * destruct (bool_decide (MAX_ATTEMPTS <= S (length (attempts (game w)))))
          eqn:Hm; cbn [orb]; [split; done|].
        apply bool_decide_eq_false_1 in Hm. split.
        -- intros Hg. destruct (Hopen Hg) as [_ Hf]. split; [lia|].
           apply Forall_app. split; [done | by apply Forall_singleton].
        -- intros Hw'. destruct (Hwon Hw') as [Hg Hex]. split; [done|].
           apply Exists_app. by left.
  - destruct (input_event w e He)
      as ((_ & _ & Ha & Hev & Hrw & Hgo & Hw) & _ & Hc & Ht).
    rewrite Ha, Hev, Hrw, Hgo, Hw.
    split; [done|]. split; [by apply Hc|]. split; [done|]. split; [|done].
    destruct Ht as [-> | (guess & Hin & ->)]; [done|].
    apply Forall_app. split; [done | by apply Forall_singleton].
Qed.

Lemma run_replayable_aux es : ∀ w,
  replayable w → replayable (run words today hasKey w es).
Proof.
  induction es as [|e es IH]; intros w H; [done|].
  apply (IH (step words today hasKey w e)). by apply step_replayable.
Qed.

Lemma run_wellPlayed_aux es : ∀ w,
  wellPlayed words w → wellPlayed words (run words today hasKey w es).
Proof.
  induction es as [|e es IH]; intros w H; [done|].
  apply (IH (step words today hasKey w e)). by apply step_wellPlayed.
Qed.

(** X10. The recorded evaluations are always those of the recorded
    attempts: if every evaluation in the history and in flight is the
    evaluation of its guess against the secret, this stays so after any
    events. *)
Theorem run_replayable (w : World) (es : list event) :
  replayable w → replayable (run words today hasKey w es).
Proof. apply run_replayable_aux. Qed.

(** X11. The bookkeeping of a game survives any events, overlapping
    submissions included: the row counter is the number of attempts, at
    most [WORD_LENGTH] letters are typed, every attempt is a word of the
    list, an open game has fewer than [MAX_ATTEMPTS] attempts and no
    all-correct evaluation, and a won game is over and has an all-correct
    evaluation. *)
Theorem run_wellPlayed (w : World) (es : list event) :
  wellPlayed words w → wellPlayed words (run words today hasKey w es).
Proof. apply run_wellPlayed_aux. Qed.

(** What the loading handler leaves behind when it returns. *)
Lemma onLoad_shape slot w :
  onLoad words today slot = Return w →
  ∃ word,
    getDailyWord words today = Return (Some word) ∧
    secretWord (game w) = word ∧ secretLetters (game w) = splitUrdu word ∧
    storage w = slot ∧ timers w = [] ∧
    attempts (game w) = storedAttempts (getUSToday today) slot ∧
    evaluations (game w) = map (evaluateGuess (splitUrdu word)) (attempts (game w)) ∧
    currentRow (game w) = length (attempts (game w)) ∧
    gameOver (game w)
    = match loadDailyState (getUSToday today) slot with
      | Return (Some saved) => default false (saved_gameOver saved)
      | _ => false
      end.
Proof.
  unfold onLoad, storedAttempts.
  destruct (getDailyWord words today) as [[word|]|] eqn:Hw; cbn; [| done | done].
  intros H. exists word. split; [done|].
  destruct (loadDailyState (getUSToday today) slot) as [[saved|]|] eqn:Hl;
    cbn in H; [| |done].
  - assert (saved_date saved = Some (getUSToday today)) as Hd.
    { unfold loadDailyState in Hl.
      destruct slot as [[| |[|r]]|]; cbn in Hl; try done.
      destruct (decide (saved_date r ≠ Some (getUSToday today))) as [|Hd];
        cbn in Hl; [done|]. injection Hl as <-.
      by destruct (decide (saved_date r = Some (getUSToday today))). }
    rewrite decide_True in H by done. injection H as <-.
    unfold restoreState. cbn. rewrite replay_evaluations. done.
  - injection H as <-. done.
Qed.

Lemma onLoad_returns slot word :
  getDailyWord words today = Return (Some word) →
  ∃ w, onLoad words today slot = Return w.
Proof.
  intros Hw. unfold onLoad. rewrite Hw. cbn.
  destruct (loadDailyState (getUSToday today) slot) as [[saved|]|] eqn:Hl; cbn.
  - destruct (decide _); eauto.
  - eauto.
  - unfold loadDailyState in Hl.
    destruct slot as [[| |[|r]]|]; cbn in Hl; try done.
    by destruct (decide _).
Qed.

Lemma step_stored w e :
  storedAttempts (getUSToday today) (storage w) = attempts (game w) →
  storedAttempts (getUSToday today) (storage (step words today hasKey w e))
  = attempts (game (step words today hasKey w e)).
Proof.
  intros H. destruct (timer_or_input e) as [->|He].
  - destruct (timers w) as [|[guess evaluation] rest] eqn:Ht.
    + by rewrite timer_idle.
    + destruct (timer_event w guess evaluation rest Ht)
        as (_ & _ & _ & Ha & _ & _ & _ & _ & _ & Hs).
      rewrite Ha, Hs. unfold storedAttempts. by rewrite load_after_save.
  - destruct (input_event w e He) as ((_ & _ & Ha & _) & Hs & _).
    by rewrite Ha, Hs.
Qed.

Lemma run_stored es : ∀ w,
  storedAttempts (getUSToday today) (storage w) = attempts (game w) →
  storedAttempts (getUSToday today) (storage (run words today hasKey w es))
  = attempts (game (run words today hasKey w es)).
Proof.
  induction es as [|e es IH]; intros w H; [done|].
  apply (IH (step words today hasKey w e)). by apply step_stored.
Qed.

(** X12. Nothing that was played is lost by reloading the page the same
    day: after any events following a load, loading again from what is then
    in storage returns, with the same secret, the same attempts and the same
    evaluations. *)
Theorem reload_after_play (slot : option item) (w0 : World) (es : list event) :
  onLoad words today slot = Return w0 →
  ∃ w1,
    onLoad words today (storage (run words today hasKey w0 es)) = Return w1 ∧
    secretWord (game w1) = secretWord (game w0) ∧
    attempts (game w1) = attempts (game (run words today hasKey w0 es)) ∧
    evaluations (game w1) = evaluations (game (run words today hasKey w0 es)).
Proof.
  intros H0.
  destruct (onLoad_shape slot w0 H0)
    as (word & Hw & Hsw & Hsl & Hst & Ht & Ha & He & _).
  destruct (onLoad_returns (storage (run words today hasKey w0 es)) word Hw)
    as [w1 H1].
  exists w1. split; [done|].
  destruct (onLoad_shape _ w1 H1)
    as (word' & Hw' & Hsw' & Hsl' & _ & _ & Ha' & He' & _).
  assert (word' = word) as -> by congruence.
  assert (replayable w0) as Hrep.
  { split; [by rewrite Hsl | by rewrite Ht]. }
  destruct (run_replayable_aux es w0 Hrep) as [Hev _].
  destruct (run_history_aux w0 es) as (_ & Hsl2 & _).
  rewrite Hsl2, Hsl in Hev.
  rewrite (run_stored es w0) in Ha' by (by rewrite Hst).
  split; [congruence|]. split; [done|]. by rewrite He', Ha', Hev.
Qed.

(** X13. The play lock holds across reloads when the game ends with no
    other submission in flight: once the only scheduled callback has ended
    the game (all correct, or the last row used), then after any further
    events, loading the page again the same day gives a game that is over
    with that attempt recorded, and no event after that changes its
    attempts, evaluations, flags or row counter, schedules a callback or
    writes to storage.  (With another callback in flight the lock can be
    lost: [late_callback_reopens_game].) *)
Theorem finished_game_locked (w : World) (guess word : jsstring)
    (evaluation : list LetterStatus) (es : list event) :
  getDailyWord words today = Return (Some word) →
  timers w = [(guess, evaluation)] →
  allCorrect evaluation = true ∨ MAX_ATTEMPTS <= S (currentRow (game w)) →
  ∃ w1,
    onLoad words today
      (storage (run words today hasKey
                  (step words today hasKey w TimerFires) es))
    = Return w1 ∧
    gameOver (game w1) = true ∧
    attempts (game w1) = attempts (game w) ++ [guess] ∧
    ∀ es', core (game (run words today hasKey w1 es')) = core (game w1) ∧
           timers (run words today hasKey w1 es') = [] ∧
           storage (run words today hasKey w1 es') = storage w1.
Proof.
  intros Hw Ht Hend.
  destruct (timer_event w guess evaluation [] Ht)
    as (Htim & _ & _ & _ & _ & _ & _ & Hgo & _ & Hs).
  assert (allCorrect evaluation
          || bool_decide (MAX_ATTEMPTS <= S (currentRow (game w))) = true) as Hover.
  { destruct Hend as [-> | Hm]; [done|].
    rewrite (bool_decide_eq_true_2 _ Hm). apply orb_true_r. }
  rewrite Hover in Hs, Hgo. cbn [orb] in Hgo.
  destruct (run_over words today hasKey es
              (step words today hasKey w TimerFires) Hgo Htim)
    as (_ & _ & Hst).
  rewrite Hst.
  destruct (onLoad_returns (storage (step words today hasKey w TimerFires)) word Hw)
    as [w1 H1].
  exists w1. split; [done|].
  destruct (onLoad_shape _ w1 H1) as (word' & _ & _ & _ & _ & Ht1 & Ha & _ & _ & Hg).
  rewrite Hs in Ha, Hg. unfold storedAttempts in Ha.
  rewrite load_after_save in Ha, Hg. cbn in Ha, Hg.
  split; [done|]. split; [done|]. intros es'. by apply run_over.
Qed.

End Running.

Lemma run_history_witness :
  gameOver (game wonWorld) = true ∧
  gameOver (game (run WORDS sampleDay noPhysicalKeys wonWorld
                    [Click (lit "enter"); TimerFires; KeyDown (lit "Enter")]))
  = true.
Proof.
  split; [reflexivity|].
  exact (proj2 (proj2 (proj2 (proj2
           (run_history WORDS sampleDay noPhysicalKeys wonWorld
              [Click (lit "enter"); TimerFires; KeyDown (lit "Enter")]))))
           eq_refl).
Defined.

Lemma run_replayable_witness :
  replayable sampleWorld ∧
  replayable (run WORDS sampleDay noPhysicalKeys sampleWorld
                [Click (lit "enter"); Click (lit "enter"); TimerFires]).
Proof.
  assert (replayable sampleWorld) as H by (split; [reflexivity | constructor]).
  exact (conj H (run_replayable WORDS sampleDay noPhysicalKeys sampleWorld _ H)).
Defined.

Lemma run_wellPlayed_witness :
  wellPlayed WORDS sampleWorld ∧
  wellPlayed WORDS (run WORDS sampleDay noPhysicalKeys sampleWorld
                      [Click (lit "enter"); Click (lit "enter"); TimerFires]).
Proof.
  assert (wellPlayed WORDS sampleWorld) as H.
  { unfold wellPlayed. cbn. split; [reflexivity|]. split; [unfold WORD_LENGTH; lia|].
    split; [constructor|]. split; [constructor|]. split.
    - intros _. split; [unfold MAX_ATTEMPTS; lia | constructor].
    - intros Hw. discriminate Hw. }
  exact (conj H (run_wellPlayed WORDS sampleDay noPhysicalKeys sampleWorld _ H)).
Defined.

Lemma reload_after_play_witness :
  onLoad WORDS sampleDay None
  = Return (freshWorld [1586; 1575; 1729; 1583]%N None) ∧
  ∃ w1,
    onLoad WORDS sampleDay
      (storage (run WORDS sampleDay noPhysicalKeys
                  (freshWorld [1586; 1575; 1729; 1583]%N None) [HintClick]))
    = Return w1 ∧
    secretWord (game w1)
    = secretWord (game (freshWorld [1586; 1575; 1729; 1583]%N None)) ∧
    attempts (game w1)
    = attempts (game (run WORDS sampleDay noPhysicalKeys
                        (freshWorld [1586; 1575; 1729; 1583]%N None) [HintClick])) ∧
    evaluations (game w1)
    = evaluations (game (run WORDS sampleDay noPhysicalKeys
                           (freshWorld [1586; 1575; 1729; 1583]%N None) [HintClick])).
Proof.
  assert (onLoad WORDS sampleDay None
          = Return (freshWorld [1586; 1575; 1729; 1583]%N None)) as H
    by reflexivity.
  exact (conj H (reload_after_play WORDS sampleDay noPhysicalKeys None _
                   [HintClick] H)).
Defined.

Lemma finished_game_locked_witness :
  let w := step WORDS sampleDay noPhysicalKeys typedSecretWorld
             (Click (lit "enter")) in
  getDailyWord WORDS sampleDay = Return (Some [1586; 1575; 1729; 1583]%N) ∧
  timers w = [([1586; 1575; 1729; 1583]%N, [Correct; Correct; Correct; Correct])] ∧
  allCorrect [Correct; Correct; Correct; Correct] = true ∧
  ∃ w1,
    onLoad WORDS sampleDay
      (storage (run WORDS sampleDay noPhysicalKeys
                  (step WORDS sampleDay noPhysicalKeys w TimerFires)
                  [Click (lit "enter"); HintClick; TimerFires])) = Return w1 ∧
    gameOver (game w1) = true ∧
    attempts (game w1) = attempts (game w) ++ [[1586; 1575; 1729; 1583]%N] ∧
    ∀ es', core (game (run WORDS sampleDay noPhysicalKeys w1 es')) = core (game w1) ∧
           timers (run WORDS sampleDay noPhysicalKeys w1 es') = [] ∧
           storage (run WORDS sampleDay noPhysicalKeys w1 es') = storage w1.
Proof.
  assert (timers (step WORDS sampleDay noPhysicalKeys typedSecretWorld
                    (Click (lit "enter")))
          = [([1586; 1575; 1729; 1583]%N, [Correct; Correct; Correct; Correct])])
    as Ht by (vm_compute; reflexivity).
  exact (conj eq_refl (conj Ht (conj eq_refl
           (finished_game_locked WORDS sampleDay noPhysicalKeys _ _
              [1586; 1575; 1729; 1583]%N _
              [Click (lit "enter"); HintClick; TimerFires]
              eq_refl Ht (or_introl eq_refl))))).
Defined.

(** ** [canPlayToday] *)

(** X14. [canPlayToday] never throws, and it answers no exactly when the
    slot holds a record dated today whose [gameOver] flag is set; a missing,
    unreadable or stale record allows play. *)
Theorem canPlayToday_spec (today : jsstring) (slot : option item) :
  (∃ b, canPlayToday today slot = Return b) ∧
  (canPlayToday today slot = Return false
   ↔ ∃ saved, slot = Some (Json (PValue saved)) ∧
              saved_date saved = Some today ∧
              saved_gameOver saved = Some true).
Proof.
  unfold canPlayToday, loadDailyState.
  destruct slot as [[| |[|r]]|]; cbn;
    try (split; [eauto | split; [done | intros (s & H & _); done]]).
  destruct (decide (saved_date r ≠ Some today)) as [Hne|Heq]; cbn.
  - split; [eauto|]. split; [done|]. intros (s & [= <-] & Hd & _). done.
  - assert (saved_date r = Some today) as Hd
      by (by destruct (decide (saved_date r = Some today))).
    split; [eauto|]. split.
    + intros [= Hg]. exists r. split; [done|]. split; [done|].
      destruct (saved_gameOver r) as [[]|]; done.
    + intros (s & [= <-] & _ & ->). done.
Qed.

(** ** Typing *)

(** X15. While the game runs, a letter key appends its letter as long as
    fewer than [WORD_LENGTH] letters are typed, and backspace then takes it
    away again, giving back the very same state; with [WORD_LENGTH] letters
    typed a letter key does nothing, and so does backspace on an empty
    row. *)
Theorem typing_letters (words : list jsstring) (w : World) (key : jsstring) :
  gameOver (game w) = false →
  key ≠ lit "backspace" → key ≠ lit "enter" →
  (length (currentGuess (game w)) < WORD_LENGTH →
     currentGuess (game (handleKey words key w))
     = currentGuess (game w) ++ [key] ∧
     handleKey words (lit "backspace") (handleKey words key w) = w) ∧
  (WORD_LENGTH <= length (currentGuess (game w)) →
     handleKey words key w = w) ∧
  (currentGuess (game w) = [] → handleKey words (lit "backspace") w = w).
Proof.
  intros Hgo Hb He. destruct w as [g sl tm ts]. destruct g. cbn in *. subst.
  split; [|split].
  - intros Hlt. unfold handleKey. cbn.
    rewrite (decide_False (P := key = _)) by done.
    rewrite (decide_False (P := key = _)) by done.
    rewrite decide_True by done. cbn. split; [done|].
    rewrite decide_True by done.
    rewrite decide_True by (rewrite length_app; cbn; lia).
    unfold updGame, setGame, setCurrentGuess. cbn. by rewrite removelast_last.
  - intros Hge. unfold handleKey. cbn.
    rewrite (decide_False (P := key = _)) by done.
    rewrite (decide_False (P := key = _)) by done.
    rewrite decide_False by lia. done.
  - intros ->. unfold handleKey. cbn. rewrite decide_True by done.
    rewrite decide_False by lia. done.
Qed.

Lemma typing_letters_witness :
  gameOver (game shortWorld) = false ∧
  [1575%N] ≠ lit "backspace" ∧ [1575%N] ≠ lit "enter" ∧
  length (currentGuess (game shortWorld)) < WORD_LENGTH ∧
  handleKey WORDS (lit "backspace") (handleKey WORDS [1575%N] shortWorld)
  = shortWorld.
Proof.
  assert ([1575%N] ≠ lit "backspace") as Hb by (intros H; discriminate H).
  assert ([1575%N] ≠ lit "enter") as He by (intros H; discriminate H).
  assert (length (currentGuess (game shortWorld)) < WORD_LENGTH) as Hl
    by (unfold WORD_LENGTH; cbn; lia).
  exact (conj eq_refl (conj Hb (conj He (conj Hl
           (proj2 (proj1 (typing_letters WORDS shortWorld [1575%N]
                            eq_refl Hb He) Hl)))))).
Defined.

(** ** Countdown *)

Lemma pad_two_digits n :
  (0 <= n < 100)%Z → pad n = [digit (n / 10); digit n].
Proof.
  intros Hn. unfold pad, String_of_Z. rewrite decide_False by lia.
  cbn [digitsOf]. destruct (decide (n < 10)%Z) as [Hlt|Hge].
  - cbn. rewrite Z.div_small by lia. reflexivity.
  - replace (Z.to_nat n) with (S (Z.to_nat n - 1)) by lia.
    cbn [digitsOf]. rewrite decide_True; [done|].
    apply Z.div_lt_upper_bound; lia.
Qed.

(** X16. For a time of day [h:m:s] with [h] in [0..23] and [m], [s] in
    [0..59], [getTimeToMidnight] splits the seconds that are left of the day
    into hours, minutes below 60 and seconds below 60; at midnight sharp it
    answers 24 hours, and the timer line always reads [HH:MM:SS]. *)
Theorem getTimeToMidnight_spec (h m s : Z) :
  (0 <= h <= 23)%Z → (0 <= m <= 59)%Z → (0 <= s <= 59)%Z →
  let t := getTimeToMidnight h m s in
  (hours t * 3600 + minutes t * 60 + seconds t
   = 86400 - (h * 3600 + m * 60 + s))%Z ∧
  (0 <= hours t <= 24)%Z ∧ (0 <= minutes t <= 59)%Z ∧ (0 <= seconds t <= 59)%Z ∧
  (hours t = 24%Z ↔ h = 0%Z ∧ m = 0%Z ∧ s = 0%Z) ∧
  timerText t
  = [digit (hours t / 10); digit (hours t); 58%N;
     digit (minutes t / 10); digit (minutes t); 58%N;
     digit (seconds t / 10); digit (seconds t)].
Proof.
  intros Hh Hm Hs t. subst t. unfold getTimeToMidnight. cbn [hours minutes seconds].
  set (total := ((23 - h) * 3600 + (59 - m) * 60 + (60 - s))%Z).
  assert (1 <= total <= 86400)%Z as Ht by (subst total; lia).
  rewrite !Z.rem_mod_nonneg by lia.
  assert (0 <= total / 3600 <= 24)%Z as H1.
  { split; [apply Z.div_pos; lia|]. apply Z.div_le_upper_bound; lia. }
  assert (0 <= total mod 3600 / 60 <= 59)%Z as H2.
  { pose proof (Z.mod_pos_bound total 3600 ltac:(lia)).
    split; [apply Z.div_pos; lia|].
    assert (total mod 3600 / 60 < 60)%Z; [|lia].
    apply Z.div_lt_upper_bound; lia. }
  assert (0 <= total mod 60 <= 59)%Z as H3.
  { pose proof (Z.mod_pos_bound total 60 ltac:(lia)). lia. }
  assert (total / 3600 * 3600 + total mod 3600 / 60 * 60 + total mod 60
          = total)%Z as Hsum.
  { pose proof (Z.div_mod total 3600 ltac:(lia)) as Ha.
    pose proof (Z.div_mod (total mod 3600) 60 ltac:(lia)) as Hb.
    assert ((total mod 3600) mod 60 = total mod 60)%Z as Hc.
    { apply Z.mod_mod_divide. exists 60%Z. lia. }
    lia. }
  split; [subst total; lia|]. split; [done|]. split; [done|]. split; [done|].
  split.
  - split.
    + intros H24. assert (total = 86400)%Z by lia. subst total. lia.
    + intros (-> & -> & ->). reflexivity.
  - unfold timerText. cbn [hours minutes seconds].
    rewrite !pad_two_digits by lia. reflexivity.
Qed.

Lemma getTimeToMidnight_spec_witness :
  (0 <= 21 <= 23)%Z ∧ (0 <= 4 <= 59)%Z ∧ (0 <= 30 <= 59)%Z ∧
  timerText (getTimeToMidnight 21 4 30) = lit "02:55:30".
Proof.
  assert (0 <= 21 <= 23)%Z as Hh by lia.
  assert (0 <= 4 <= 59)%Z as Hm by lia.
  assert (0 <= 30 <= 59)%Z as Hs by lia.
  exact (conj Hh (conj Hm (conj Hs
           (proj2 (proj2 (proj2 (proj2 (proj2
              (getTimeToMidnight_spec 21 4 30 Hh Hm Hs))))))))).
Defined.

(** ** Daily word and day keys: further properties *)

(** X17. In a list without repetitions a word comes back only after a full
    cycle: if two days on or after the epoch have the same daily word, their
    day counts agree modulo the length of the list. *)
Theorem getDailyWord_cycle (words : list jsstring) (k k' : DayKey) :
  NoDup words → words ≠ [] →
  (0 <= daysFromEpoch k)%Z → (0 <= daysFromEpoch k')%Z →
  getDailyWord words k = getDailyWord words k' →
  (daysFromEpoch k mod Z.of_nat (length words)
   = daysFromEpoch k' mod Z.of_nat (length words))%Z.
Proof.
  intros Hnd Hne Hk Hk'. rewrite !getDailyWord_index by done. intros [= Heq].
  assert (0 < Z.of_nat (length words))%Z as Hlen.
  { destruct words; [done | cbn; lia]. }
  pose proof (Z.mod_pos_bound (daysFromEpoch k) _ Hlen).
  pose proof (Z.mod_pos_bound (daysFromEpoch k') _ Hlen).
  destruct (lookup_lt_is_Some_2 words
              (Z.to_nat (daysFromEpoch k mod Z.of_nat (length words))))
    as [word Hw]; [lia|].
  rewrite Hw in Heq. symmetry in Heq.
  pose proof (NoDup_lookup _ _ _ _ Hnd Hw Heq). lia.
Qed.

Lemma NoDup_WORDS : NoDup WORDS.
Proof. apply (bool_decide_unpack _). vm_compute. exact I. Qed.

Lemma getDailyWord_cycle_witness :
  NoDup WORDS ∧ WORDS ≠ [] ∧
  (0 <= daysFromEpoch sampleDay)%Z ∧
  (0 <= daysFromEpoch {| year := 2026; month := 11; day := 22 |})%Z ∧
  getDailyWord WORDS sampleDay
  = getDailyWord WORDS {| year := 2026; month := 11; day := 22 |} ∧
  (daysFromEpoch sampleDay mod Z.of_nat (length WORDS)
   = daysFromEpoch {| year := 2026; month := 11; day := 22 |}
     mod Z.of_nat (length WORDS))%Z.
Proof.
  assert (WORDS ≠ []) as Hne by (intros H; discriminate H).
  assert (0 <= daysFromEpoch sampleDay)%Z as H1 by (intros H; discriminate H).
  assert (0 <= daysFromEpoch {| year := 2026; month := 11; day := 22 |})%Z
    as H2 by (intros H; discriminate H).
  assert (getDailyWord WORDS sampleDay
          = getDailyWord WORDS {| year := 2026; month := 11; day := 22 |}) as Heq
    by (vm_compute; reflexivity).
  exact (conj NoDup_WORDS (conj Hne (conj H1 (conj H2 (conj Heq
           (getDailyWord_cycle WORDS sampleDay
              {| year := 2026; month := 11; day := 22 |}
              NoDup_WORDS Hne H1 H2 Heq)))))).
Defined.

Lemma digit_inj a b :
  digit a = digit b → (a mod 10 = b mod 10)%Z.
Proof.
  unfold digit. intros H.
  pose proof (Z.mod_pos_bound a 10 ltac:(lia)).
  pose proof (Z.mod_pos_bound b 10 ltac:(lia)).
  apply Z2N.inj in H; lia.
Qed.

Lemma getUSToday_inj k k' :
  validDay k → validDay k' → getUSToday k = getUSToday k' → k = k'.
Proof.
  intros (Hy & Hm & Hd) (Hy' & Hm' & Hd'). unfold getUSToday.
  intros [= Y3 Y2 Y1 Y0 M1 M0 D1 D0].
  apply digit_inj in Y3, Y2, Y1, Y0, M1, M0, D1, D0.
  destruct k as [y m d], k' as [y' m' d']. cbn in *.
  assert (m = m') as -> by (clear -Hm Hm' M1 M0; Z.to_euclidean_division_equations; lia).
  assert (d = d') as -> by (clear -Hd Hd' D1 D0; Z.to_euclidean_division_equations; lia).
  assert (y = y') as ->; [|done].
  clear -Hy Hy' Y3 Y2 Y1 Y0. Z.to_euclidean_division_equations. lia.
Qed.

(** X18. Day keys tell days apart: two valid dates with the same key are the
    same date, so what was saved on one valid date is never loaded on
    another. *)
Theorem stale_day_discarded (k k' : DayKey) (atts : list jsstring)
    (over wn : bool) :
  validDay k → validDay k' →
  (getUSToday k = getUSToday k' → k = k') ∧
  (k ≠ k' →
   loadDailyState (getUSToday k') (saveDailyState (getUSToday k) atts over wn)
   = Return None).
Proof.
  intros Hk Hk'. split; [by apply getUSToday_inj|].
  intros Hne. unfold loadDailyState, saveDailyState. cbn.
  rewrite decide_True; [done|]. intros H.
  assert (getUSToday k = getUSToday k') as Hkey by congruence.
  by apply getUSToday_inj in Hkey.
Qed.

Lemma stale_day_discarded_witness :
  validDay sampleDay ∧ validDay {| year := 2026; month := 11; day := 3 |} ∧
  loadDailyState (getUSToday {| year := 2026; month := 11; day := 3 |})
    (saveDailyState (getUSToday sampleDay) [] true true)
  = Return None.
Proof.
  assert (validDay sampleDay) as H1 by (unfold validDay; cbn; lia).
  assert (validDay {| year := 2026; month := 11; day := 3 |}) as H2
    by (unfold validDay; cbn; lia).
  assert (sampleDay ≠ {| year := 2026; month := 11; day := 3 |}) as Hne
    by (intros H; discriminate H).
  exact (conj H1 (conj H2
           (proj2 (stale_day_discarded sampleDay _ [] true true H1 H2) Hne))).
Defined.

(** X19. Loading succeeds for a non-empty list on a day on or after the
    epoch whenever the slot gives no record for today (it is empty, does not
    parse, parses to [null], or holds a record of another day) or holds a
    record that [saveDailyState] wrote today: it returns a game whose secret
    is a word of the list, with nothing scheduled and the slot untouched;
    in the first case the game has no attempt and is not over, in the
    second it has the saved attempts and flags. *)
Theorem onLoad_succeeds (words : list jsstring) (today : DayKey)
    (slot : option item) :
  words ≠ [] → (0 <= daysFromEpoch today)%Z →
  usualSlot (getUSToday today) slot →
  ∃ w, onLoad words today slot = Return w ∧
       secretWord (game w) ∈ words ∧
       secretLetters (game w) = splitUrdu (secretWord (game w)) ∧
       timers w = [] ∧ storage w = slot ∧
       (loadDailyState (getUSToday today) slot = Return None →
        attempts (game w) = [] ∧ gameOver (game w) = false ∧
        won (game w) = false) ∧
       (∀ atts over wn,
          slot = saveDailyState (getUSToday today) atts over wn →
          attempts (game w) = atts ∧ gameOver (game w) = over ∧
          won (game w) = wn).
Proof.
  intros Hne Hpos Hslot.
  assert (∃ word, getDailyWord words today = Return (Some word) ∧ word ∈ words)
    as (word & Hw & Hin).
  { rewrite getDailyWord_index by done.
    assert (0 < Z.of_nat (length words))%Z as Hlen.
    { destruct words; [done | cbn; lia]. }
    pose proof (Z.mod_pos_bound (daysFromEpoch today) _ Hlen).
    destruct (lookup_lt_is_Some_2 words
                (Z.to_nat (daysFromEpoch today mod Z.of_nat (length words))))
      as [word Hword]; [lia|].
    exists word. rewrite Hword. split; [done|]. by eapply list_elem_of_lookup_2. }
  destruct Hslot as [Hnone | (atts & over & wn & ->)].
  - exists (freshWorld word slot). split.
    { unfold onLoad. rewrite Hw. cbn. by rewrite Hnone. }
    cbn. split; [done|]. split; [done|]. split; [done|]. split; [done|].
    split; [done|].
    intros atts' over' wn' ->. rewrite load_after_save in Hnone. done.
  - eexists. split.
    { unfold onLoad. rewrite Hw, load_after_save. cbn.
      rewrite decide_True by done. reflexivity. }
    unfold restoreState. cbn. split; [done|]. split; [done|].
    split; [done|]. split; [done|]. split.
    + intros Hnone. rewrite load_after_save in Hnone. done.
    + intros atts' over' wn' Heq. injection Heq as <- <- <-. done.
Qed.

Lemma onLoad_succeeds_witness :
  let slot := saveDailyState (getUSToday sampleDay)
                [[1591; 1575; 1729; 1585]%N] false false in
  WORDS ≠ [] ∧ (0 <= daysFromEpoch sampleDay)%Z ∧
  usualSlot (getUSToday sampleDay) slot ∧
  ∃ w, onLoad WORDS sampleDay slot = Return w ∧
       secretWord (game w) ∈ WORDS ∧
       secretLetters (game w) = splitUrdu (secretWord (game w)) ∧
       timers w = [] ∧ storage w = slot ∧
       (loadDailyState (getUSToday sampleDay) slot = Return None →
        attempts (game w) = [] ∧ gameOver (game w) = false ∧
        won (game w) = false) ∧
       (∀ atts over wn,
          slot = saveDailyState (getUSToday sampleDay) atts over wn →
          attempts (game w) = atts ∧ gameOver (game w) = over ∧
          won (game w) = wn).
Proof.
  assert (WORDS ≠ []) as Hne by (intros H; discriminate H).
  assert (0 <= daysFromEpoch sampleDay)%Z as H1 by (intros H; discriminate H).
  assert (usualSlot (getUSToday sampleDay)
            (saveDailyState (getUSToday sampleDay)
               [[1591; 1575; 1729; 1585]%N] false false)) as H2.
  { right. exists [[1591; 1575; 1729; 1585]%N], false, false. reflexivity. }
  exact (conj Hne (conj H1 (conj H2
           (onLoad_succeeds WORDS sampleDay _ Hne H1 H2)))).
Defined.

(** ** Share text *)

Lemma glyphRow_concat evaluation :
  glyphRow evaluation = concat (map glyph evaluation).
Proof.
  unfold glyphRow.
  assert (∀ acc, fold_left (fun row status => row ++ glyph status) evaluation acc
                 = acc ++ concat (map glyph evaluation)) as H.
  { induction evaluation as [|s l IH]; intros acc; cbn.
    - by rewrite app_nil_r.
    - rewrite IH. by rewrite <- app_assoc. }
  apply H.
Qed.

Lemma glyphRow_inj e1 e2 : glyphRow e1 = glyphRow e2 → e1 = e2.
Proof.
  rewrite !glyphRow_concat. revert e2.
  induction e1 as [|s1 e1 IH]; intros [|s2 e2]; cbn.
  - done.
  - by destruct s2.
  - by destruct s1.
  - destruct s1, s2; cbn; intros [= H]; f_equal; by apply IH.
Qed.

Lemma glyphRow_last evaluation :
  evaluation ≠ [] →
  ∃ m b, glyphRow evaluation = m ++ [b] ∧ isWhiteSpace b = false.
Proof.
  rewrite glyphRow_concat.
  destruct evaluation as [|s l] using rev_ind; [done|]. intros _.
  rewrite map_app, concat_app. cbn. rewrite app_nil_r.
  exists (concat (map glyph l)). destruct s; eexists; split; done.
Qed.

Lemma share_rows (rows : list jsstring) (text : jsstring) :
  rows ≠ [] →
  fold_left (fun text row => text ++ row ++ [10%N]) rows text
  = text ++ joinLines rows ++ [10%N].
Proof.
  revert text. induction rows as [|row rows IH]; intros text Hne; [done|].
  cbn [fold_left]. destruct rows as [|row' rows].
  - cbn. by rewrite app_nil_r.
  - rewrite IH by done. cbn [joinLines map concat].
    rewrite <- !app_assoc. cbn [app]. done.
Qed.

Lemma joinLines_last (rows : list jsstring) :
  rows ≠ [] → (∀ row, last rows = Some row →
                 ∃ m b, row = m ++ [b] ∧ isWhiteSpace b = false) →
  ∃ m b, joinLines rows = m ++ [b] ∧ isWhiteSpace b = false.
Proof.
  destruct rows as [|row rows] using rev_ind; [done|]. intros _ H.
  destruct (H row) as (m & b & -> & Hb); [by rewrite last_snoc|].
  destruct rows as [|r0 rows'].
  - exists m, b. cbn. by rewrite app_nil_r.
  - cbn. rewrite map_app, concat_app. cbn. rewrite app_nil_r.
    exists (r0 ++ concat (map (fun r => 10%N :: r) rows') ++ 10%N :: m), b.
    split; [|done]. by rewrite <- !app_assoc.
Qed.

Lemma trim_line (a b : N) (s : jsstring) :
  isWhiteSpace a = false → isWhiteSpace b = false →
  trim (a :: s ++ [b] ++ [10%N]) = a :: s ++ [b].
Proof.
  intros Ha Hb. unfold trim. cbn [dropWhile]. rewrite Ha.
  rewrite reverse_cons, !reverse_app, !reverse_singleton. cbn [app dropWhile].
  rewrite Hb. assert (isWhiteSpace 10 = true) as -> by reflexivity.
  rewrite reverse_cons, reverse_app, reverse_involutive, reverse_singleton.
  cbn. done.
Qed.

Lemma shareText_rows today g :
  evaluations g ≠ [] →
  shareText today g
  = SHARE_TITLE ++ today ++ [10%N] ++ score g ++ lit "/5" ++ [10; 10]%N
    ++ joinLines (map glyphRow (evaluations g)) ++ [10%N].
Proof.
  intros Hne. unfold shareText.
  assert (∀ text evs,
    fold_left (fun text evaluation => text ++ glyphRow evaluation ++ [10%N]) evs text
    = fold_left (fun text row => text ++ row ++ [10%N]) (map glyphRow evs) text)
    as Hmap.
  { intros text evs. revert text. induction evs as [|e evs IH]; intros text; [done|].
    cbn. apply IH. }
  rewrite Hmap, share_rows by (by destruct (evaluations g)).
  unfold score. rewrite <- !app_assoc. reflexivity.
Qed.

(** X20. [shareResult] asks to play first when there is no attempt, and
    reports a failure when there is no clipboard.  Otherwise, when there is
    at least one evaluation and none is empty, the text handed to the
    clipboard is the title with the day, the score line, an empty line, and
    one row of squares per evaluation, with no line feed at the end; and the
    rows of squares tell the evaluations apart. *)
Theorem shareResult_text (today : jsstring) (g : Game) :
  (attempts g = [] →
   ∀ hasClipboard, shareResult today hasClipboard g = ShowMessage MSG_PLAY_FIRST) ∧
  (attempts g ≠ [] →
   shareResult today false g = ShowMessage MSG_COPY_FAILED) ∧
  (attempts g ≠ [] → evaluations g ≠ [] →
   Forall (fun evaluation => evaluation ≠ []) (evaluations g) →
   shareResult today true g
   = WriteClipboard
       (SHARE_TITLE ++ today ++ [10%N] ++ score g ++ lit "/5" ++ [10; 10]%N
        ++ joinLines (map glyphRow (evaluations g)))) ∧
  (∀ e1 e2, glyphRow e1 = glyphRow e2 → e1 = e2).
Proof.
  split; [|split; [|split]].
  - intros Ha cb. unfold shareResult. by rewrite Ha.
  - intros Ha. unfold shareResult. rewrite decide_False; [done|].
    by destruct (attempts g).
  - intros Ha He Hall. unfold shareResult. rewrite decide_False
      by (by destruct (attempts g)).
    f_equal. rewrite shareText_rows by done.
    destruct (joinLines_last (map glyphRow (evaluations g))) as (m & b & Hj & Hb).
    { by destruct (evaluations g). }
    { intros row Hrow. rewrite last_lookup, length_map, list_lookup_fmap in Hrow.
      destruct (evaluations g !! _) as [e|] eqn:Hl; [|done].
      injection Hrow as <-. apply glyphRow_last.
      rewrite Forall_forall in Hall. apply Hall.
      by eapply list_elem_of_lookup_2. }
    rewrite Hj.
    change (SHARE_TITLE ++ today ++ [10%N] ++ score g ++ lit "/5" ++ [10; 10]%N
            ++ (m ++ [b]) ++ [10%N])
      with (1575%N :: ([1615; 1585; 1583; 1604; 32]%N ++ today ++ [10%N]
                       ++ score g ++ lit "/5" ++ [10; 10]%N ++ (m ++ [b]) ++ [10%N])).
    replace ([1615; 1585; 1583; 1604; 32]%N ++ today ++ [10%N] ++ score g
             ++ lit "/5" ++ [10; 10]%N ++ (m ++ [b]) ++ [10%N])
      with (([1615; 1585; 1583; 1604; 32]%N ++ today ++ [10%N] ++ score g
             ++ lit "/5" ++ [10; 10]%N ++ m) ++ [b] ++ [10%N])
      by (by rewrite <- !app_assoc).
    rewrite trim_line by done. unfold SHARE_TITLE.
    rewrite <- !app_assoc. reflexivity.
  - apply glyphRow_inj.
Qed.

Lemma shareResult_text_witness :
  attempts (game wonWorld) ≠ [] ∧ evaluations (game wonWorld) ≠ [] ∧
  Forall (fun evaluation => evaluation ≠ []) (evaluations (game wonWorld)) ∧
  shareResult (getUSToday sampleDay) true (game wonWorld)
  = WriteClipboard
      (SHARE_TITLE ++ lit "2026-11-02" ++ [10%N] ++ lit "1/5" ++ [10; 10]%N
       ++ [129001; 129001; 129001; 129001]%N).
Proof.
  assert (attempts (game wonWorld) ≠ []) as Ha by (intros H; discriminate H).
  assert (evaluations (game wonWorld) ≠ []) as He by (intros H; discriminate H).
  assert (Forall (fun evaluation => evaluation ≠ []) (evaluations (game wonWorld)))
    as Hall by (repeat constructor; intros H; discriminate H).
  exact (conj Ha (conj He (conj Hall
           (proj1 (proj2 (proj2 (shareResult_text (getUSToday sampleDay)
                                   (game wonWorld)))) Ha He Hall)))).
Defined.

(** ** Evaluation: letters that are not guessed too often *)

Lemma countBelow_tight P Q n :
  (∀ j, j < n → P j = true → Q j = true) →
  countBelow P n = countBelow Q n →
  ∀ j, j < n → Q j = true → P j = true.
Proof.
  induction n as [|n IH]; intros Hsub Heq j Hj HQ; [lia|].
  cbn [countBelow] in Heq.
  pose proof (countBelow_le P Q n ltac:(intros; apply Hsub; (lia || done))) as Hle.
  pose proof (Hsub n ltac:(lia)) as Hn.
  destruct (decide (j = n)) as [->|Hne].
  - rewrite HQ in Heq. destruct (P n); [done|lia].
  - apply IH; [intros; apply Hsub; (lia || done) | | lia | done].
    destruct (P n), (Q n); first [lia | discriminate (Hn eq_refl)].
Qed.

(** X21. Against a secret of [WORD_LENGTH] letters, a letter that occurs
    among the first [WORD_LENGTH] letters of the guess no more often than in
    the secret gets no absent tile: every one of its tiles is correct or
    present.  In particular a rearrangement of the secret has no absent
    tile. *)
Theorem evaluateGuess_no_absent (secret guess : list letter) (c : letter) (i : nat) :
  length secret = WORD_LENGTH →
  occurrences (take WORD_LENGTH guess) c <= occurrences secret c →
  i < WORD_LENGTH → guess !! i = Some c →
  evaluateGuess secret guess !! i = Some Correct
  ∨ evaluateGuess secret guess !! i = Some Present.
Proof.
  intros Hlen Hocc Hi Hg.
  pose proof (marked_count secret guess c Hlen) as Hm.
  rewrite Nat.min_r in Hm by done. rewrite <- countBelow_take in Hm.
  assert (markedAt (evaluateGuess secret guess) guess c i = true) as Hmark.
  { apply (countBelow_tight _ (letterAt guess c) WORD_LENGTH); [|done|done|].
    - intros j _ H. unfold markedAt in H. apply bool_decide_eq_true_1 in H as [H _].
      by apply bool_decide_eq_true_2.
    - by apply bool_decide_eq_true_2. }
  unfold markedAt in Hmark. by apply bool_decide_eq_true_1 in Hmark as [_ H].
Qed.

Lemma evaluateGuess_no_absent_witness :
  length [1; 2; 3; 1]%N = WORD_LENGTH ∧
  occurrences (take WORD_LENGTH [2; 1; 1; 3]%N) 1%N <= occurrences [1; 2; 3; 1]%N 1%N ∧
  2 < WORD_LENGTH ∧ [2; 1; 1; 3]%N !! 2 = Some 1%N ∧
  (evaluateGuess [1; 2; 3; 1]%N [2; 1; 1; 3]%N !! 2 = Some Correct
   ∨ evaluateGuess [1; 2; 3; 1]%N [2; 1; 1; 3]%N !! 2 = Some Present).
Proof.
  assert (occurrences (take WORD_LENGTH [2; 1; 1; 3]%N) 1%N
          <= occurrences [1; 2; 3; 1]%N 1%N) as Ho by (vm_compute; lia).
  assert (2 < WORD_LENGTH) as Hi by (unfold WORD_LENGTH; lia).
  exact (conj eq_refl (conj Ho (conj Hi (conj eq_refl
           (evaluateGuess_no_absent [1; 2; 3; 1]%N [2; 1; 1; 3]%N 1%N 2
              eq_refl Ho Hi eq_refl))))).
Defined.
